(** * Monthly revenue dashboard: the data-preparation pipeline of [dsd.py]

    The script loads a table (an uploaded CSV or the demo data), renames
    its columns to the four canonical Korean names, stops with an error
    when one of them is missing, converts the period column to
    timestamps, sorts by it, derives the delta, cumulative and label
    columns and finally computes four KPI aggregates.

    The embedding follows the script line by line.

    - A Python [str] is a list of Unicode code points, so that
      [str.strip] can be modelled with Python's own whitespace table.
    - A pandas [Series] is a column of one dtype: [object] (strings and
      missing values), [int64] (integers with wrap-around), [float64]
      (IEEE binary64, Rocq's primitive floats) or [datetime64[ns]]
      (nanoseconds since the epoch, [None] for [NaT]).
    - A [DataFrame] is the list of its labelled columns, in order; labels
      may repeat, as they can after renaming.
    - A run of the script ends by [st.stop()], by an uncaught exception
      or with the prepared frame, and shows a list of page events on the
      way. Charts, layout and number formatting are not modelled.
    - Library routines whose result depends on the pandas/numpy build
      or on the moment of the run (date parsing, the unstable quicksort
      behind [sort_values]) are the fields of the class [Pandas],
      together with the laws the development relies on; [ref_pandas]
      and [pandas_at] are instances. The float64 reductions [sum] and
      [mean], whose order of summation is numpy's, are the fields of
      the class [Reductions]; their laws say that they add up the
      entries that are not missing, and [ref_reductions] is an
      instance. Where pandas versions differ on a corner (arithmetic on
      [object] columns), the behaviour of pandas 2 is taken.

    Statements about sums and differences are made in the columns' own
    arithmetic ([int64] with wrap-around, IEEE for [float64]) and, when
    the exact result is an [int64] value, over the integers. *)

From Stdlib Require Import ZArith Floats Ascii String.
From stdpp Require Import base option list sorting gmap.

(** ** Python strings *)

Abbreviation str := (list N) (only parsing).

(** An ASCII literal as a Python string. *)
Definition py (s : string) : str := N_of_ascii <$> list_ascii_of_string s.

(** [str.isspace] on one code point (CPython's [_PyUnicode_IsWhitespace]). *)
Definition isspace (c : N) : bool :=
  (((0x09 <=? c) && (c <=? 0x0D)) || ((0x1C <=? c) && (c <=? 0x20))
   || (c =? 0x85) || (c =? 0xA0) || (c =? 0x1680)
   || ((0x2000 <=? c) && (c <=? 0x200A))
   || (c =? 0x2028) || (c =? 0x2029) || (c =? 0x202F) || (c =? 0x205F)
   || (c =? 0x3000))%N.

Fixpoint lstrip (s : str) : str :=
  match s with
  | c :: s' => if isspace c then lstrip s' else s
  | [] => []
  end.

Definition rstrip (s : str) : str := reverse (lstrip (reverse s)).

(** [s.strip()] *)
Definition strip (s : str) : str := rstrip (lstrip s).

(** [sep.join(parts)] *)
Fixpoint join (sep : str) (parts : list str) : str :=
  match parts with
  | [] => []
  | [p] => p
  | p :: ps => p ++ sep ++ join sep ps
  end.

(** ** Column labels used by the script *)

(** "월" *)
Definition col_month : str := [0xC6D4]%N.
(** "매출액" *)
Definition col_revenue : str := [0xB9E4; 0xCD9C; 0xC561]%N.
(** "전년동월" *)
Definition col_last_year : str := [0xC804; 0xB144; 0xB3D9; 0xC6D4]%N.
(** "증감률" *)
Definition col_yoy : str := [0xC99D; 0xAC10; 0xB960]%N.
(** "증감액" *)
Definition col_delta : str := [0xC99D; 0xAC10; 0xC561]%N.
(** "누적매출" *)
Definition col_cumulative : str := [0xB204; 0xC801; 0xB9E4; 0xCD9C]%N.
(** "월라벨" *)
Definition col_label : str := [0xC6D4; 0xB77C; 0xBCA8]%N.

(** [colmap]: canonical name and its accepted raw names, in the order
    the dict literal lists them. *)
Definition colmap : list (str * list str) :=
  [ (col_month,     [col_month;     py "month";     py "Month"]);
    (col_revenue,   [col_revenue;   py "revenue";   py "Revenue"]);
    (col_last_year, [col_last_year; py "last_year"; py "PY"]);
    (col_yoy,       [col_yoy;       py "yoy";       py "YoY"]) ].

Definition required : list str :=
  [col_month; col_revenue; col_last_year; col_yoy].

(** ** Series and data frames *)

Inductive Series :=
  | SObject (l : list (option str))
  | SInt64 (l : list Z)
  | SFloat64 (l : list float)
  | SDatetime (l : list (option Z)).

Abbreviation DataFrame := (list (str * Series)) (only parsing).

(** [df.columns] *)
Definition columns (df : DataFrame) : list str := df.*1.

(** [len(s)] *)
Definition series_len (s : Series) : nat :=
  match s with
  | SObject l => length l
  | SInt64 l => length l
  | SFloat64 l => length l
  | SDatetime l => length l
  end.

(** ** Column-name normalisation (lines 76-88) *)

(** The inner loop [for c in df.columns: if c.strip() in alts: ...; break]. *)
Fixpoint scan (std : str) (alts : list str) (cols : list str)
    (rename_dict : gmap (list N) (list N)) : gmap (list N) (list N) :=
  match cols with
  | [] => rename_dict
  | c :: cols' =>
      if bool_decide (strip c ∈ alts) then <[c := std]> rename_dict
      else scan std alts cols' rename_dict
  end.

(** The outer loop [for std, alts in colmap.items()]. *)
Definition build_rename_dict (cols : list str) : gmap (list N) (list N) :=
  foldl (λ d '(std, alts), scan std alts cols d) ∅ colmap.

(** [df.rename(columns=rename_dict)]: a label that is a key is replaced
    by its value, every other label and all the data are kept. *)
Definition rename (rename_dict : gmap (list N) (list N)) (df : DataFrame)
    : DataFrame :=
  (λ '(c, s), (default c (rename_dict !! c), s)) <$> df.

Definition normalize_columns (df : DataFrame) : DataFrame :=
  rename (build_rename_dict (columns df)) df.

(** [missing = [c for c in required if c not in df.columns]] *)
Definition missing (df : DataFrame) : list str :=
  filter (λ c, c ∉ columns df) required.

(** [df[key]]: the column labelled [key]. With a duplicated label pandas
    returns a frame instead of a column, and every use the script makes
    of it then raises; an absent label raises [KeyError]. Both are [None]. *)
Definition getitem (df : DataFrame) (key : str) : option Series :=
  match filter (λ p, p.1 = key) df with
  | [(_, s)] => Some s
  | _ => None
  end.

(** [df[key] = s]: replaces the column(s) labelled [key], or appends a
    new last column when there is none. *)
Definition setitem (df : DataFrame) (key : str) (s : Series) : DataFrame :=
  if bool_decide (key ∈ columns df)
  then (λ p, if bool_decide (p.1 = key) then (key, s) else p) <$> df
  else df ++ [(key, s)].

(** ** int64 columns *)

Definition wrap64 (z : Z) : Z := ((z + 2 ^ 63) `mod` 2 ^ 64 - 2 ^ 63)%Z.
Definition add64 (a b : Z) : Z := wrap64 (a + b).
Definition sub64 (a b : Z) : Z := wrap64 (a - b).

Definition int64 (z : Z) : Prop := (- 2 ^ 63 ≤ z < 2 ^ 63)%Z.

(** The exact sum of the entries, as a mathematical integer. *)
Definition Zsum (l : list Z) : Z := foldr Z.add 0%Z l.

(** [numpy.add.reduce] on int64: 0 for the empty column. *)
Definition sum64 (l : list Z) : Z :=
  match l with
  | [] => 0%Z
  | x :: l' => foldl add64 x l'
  end.

(** [numpy.cumsum] on int64: [out[0] = a[0]], [out[i] = out[i-1] + a[i]]. *)
Fixpoint accumulate64 (acc : Z) (l : list Z) : list Z :=
  match l with
  | [] => []
  | x :: l' => let acc' := add64 acc x in acc' :: accumulate64 acc' l'
  end.

Definition cumsum64 (l : list Z) : list Z :=
  match l with
  | [] => []
  | x :: l' => x :: accumulate64 x l'
  end.

(** [numpy.argmax] / [argmin]: the first position of the extreme value. *)
Fixpoint argbest {A} (better : A → A → bool) (best_i : nat) (best : A)
    (i : nat) (l : list A) : nat :=
  match l with
  | [] => best_i
  | x :: l' =>
      if better x best then argbest better i x (S i) l'
      else argbest better best_i best (S i) l'
  end.

Definition idxmax64 (l : list Z) : option nat :=
  match l with
  | [] => None
  | x :: l' => Some (argbest (λ a b, (b <? a)%Z) 0 x 1 l')
  end.

Definition idxmin64 (l : list Z) : option nat :=
  match l with
  | [] => None
  | x :: l' => Some (argbest (λ a b, (a <? b)%Z) 0 x 1 l')
  end.

(** ** float64 columns *)

(** The cast int64 -> float64 (round to nearest even). *)
Definition float_of_int64 (z : Z) : float :=
  if (z =? - 2 ^ 63)%Z then (-9223372036854775808)%float
  else if (z <? 0)%Z
       then PrimFloat.opp (PrimFloat.of_uint63 (Uint63.of_Z (- z)))
  else PrimFloat.of_uint63 (Uint63.of_Z z).

Fixpoint faccumulate (acc : float) (l : list float) : list float :=
  match l with
  | [] => []
  | x :: l' => let acc' := PrimFloat.add acc x in acc' :: faccumulate acc' l'
  end.

(** pandas [cumsum] on float64 ([skipna=True]): the missing entries count
    as 0.0 in the running sum and are put back as NaN in the result. *)
Definition fcumsum (l : list float) : list float :=
  let vals := (λ x, if PrimFloat.is_nan x then 0%float else x) <$> l in
  let res := match vals with [] => [] | x :: r => x :: faccumulate x r end in
  zip_with (λ x r, if PrimFloat.is_nan x then PrimFloat.nan else r) l res.

(** The left-to-right IEEE sum of the entries. *)
Definition fsum (l : list float) : float :=
  match l with
  | [] => 0%float
  | x :: l' => foldl PrimFloat.add x l'
  end.

(** [x], or [v] where [x] is missing. *)
Definition fill (v x : float) : float := if PrimFloat.is_nan x then v else x.

(** The entries that are not missing. *)
Definition present (l : list float) : list float :=
  filter (λ x, PrimFloat.is_nan x = false) l.

(** [len(l)] as a float64. *)
Definition float_of_nat (n : nat) : float := float_of_int64 (Z.of_nat n).

(** [Series.idxmax()] and [idxmin()] on float64 ([skipna=True]): pandas
    puts -inf, respectively +inf, in the place of the missing entries
    and takes numpy's [argmax], respectively [argmin], the first position
    of the extreme value. On a column with no entry that is not missing
    the call, or the [df.loc] that uses its result, raises. *)
Definition float_idxmax (l : list float) : option nat :=
  if forallb PrimFloat.is_nan l then None
  else match fill neg_infinity <$> l with
       | [] => None
       | x :: l' => Some (argbest (λ a b, PrimFloat.ltb b a) 0 x 1 l')
       end.

Definition float_idxmin (l : list float) : option nat :=
  if forallb PrimFloat.is_nan l then None
  else match fill infinity <$> l with
       | [] => None
       | x :: l' => Some (argbest (λ a b, PrimFloat.ltb a b) 0 x 1 l')
       end.

(** A key whose lexicographic order is the order of the values that are
    not NaN. *)
Definition rank (f : spec_float) : Z * Z * Z :=
  match f with
  | S754_infinity true => (-2, 0, 0)
  | S754_finite true m e => (-1, - e, - Z.pos m)
  | S754_zero _ | S754_nan => (0, 0, 0)
  | S754_finite false m e => (1, e, Z.pos m)
  | S754_infinity false => (2, 0, 0)
  end%Z.

Definition lex_lt (p q : Z * Z * Z) : Prop :=
  (p.1.1 < q.1.1 ∨
   (p.1.1 = q.1.1 ∧ (p.1.2 < q.1.2 ∨ (p.1.2 = q.1.2 ∧ p.2 < q.2))))%Z.

(** ** Timestamps and [strftime("%Y-%m")] *)

Definition ns_per_day : Z := 86400000000000.

(** Days since 1970-01-01 of a civil date, and back (proleptic Gregorian). *)
Definition days_from_civil (y m d : Z) : Z :=
  let y := (if m <=? 2 then y - 1 else y)%Z in
  let era := (y `div` 400)%Z in
  let yoe := (y - era * 400)%Z in
  let mp := (if m <=? 2 then m + 9 else m - 3)%Z in
  let doy := ((153 * mp + 2) `div` 5 + d - 1)%Z in
  let doe := (yoe * 365 + yoe `div` 4 - yoe `div` 100 + doy)%Z in
  (era * 146097 + doe - 719468)%Z.

Definition civil_from_days (z : Z) : Z * Z * Z :=
  let z := (z + 719468)%Z in
  let era := (z `div` 146097)%Z in
  let doe := (z - era * 146097)%Z in
  let yoe := ((doe - doe `div` 1460 + doe `div` 36524 - doe `div` 146096)
              `div` 365)%Z in
  let doy := (doe - (365 * yoe + yoe `div` 4 - yoe `div` 100))%Z in
  let mp := ((5 * doy + 2) `div` 153)%Z in
  let d := (doy - (153 * mp + 2) `div` 5 + 1)%Z in
  let m := (if mp <? 10 then mp + 3 else mp - 9)%Z in
  let y := (yoe + era * 400 + (if m <=? 2 then 1 else 0))%Z in
  (y, m, d).

(** Midnight of the first day of month [m] of year [y], in nanoseconds. *)
Definition month_start (y m : Z) : Z := (days_from_civil y m 1 * ns_per_day)%Z.

Definition digit (z : Z) : N := (0x30 + Z.to_N (z `mod` 10))%N.

(** "YYYY-MM" *)
Definition format_ym (y m : Z) : str :=
  [digit (y `div` 1000); digit (y `div` 100); digit (y `div` 10); digit y;
   0x2D%N; digit (m `div` 10); digit m].

(** [Timestamp.strftime("%Y-%m")] *)
Definition strftime_Ym (t : Z) : str :=
  let '(y, m, _) := civil_from_days (t `div` ns_per_day) in format_ym y m.

(** The years whose every month is a [datetime64[ns]] value. *)
Definition ym_valid (y m : Z) : Prop :=
  (1678 ≤ y ≤ 2261 ∧ 1 ≤ m ≤ 12)%Z.

Definition is_digit (c : N) : bool := ((0x30 <=? c) && (c <=? 0x39))%N.
Definition digit_val (c : N) : Z := Z.of_N (c - 0x30).

(** The strict "YYYY-MM" form the caption recommends, as a timestamp. *)
Definition parse_ym (s : str) : option Z :=
  match s with
  | [y1; y2; y3; y4; dash; m1; m2] =>
      let y := (((digit_val y1 * 10 + digit_val y2) * 10 + digit_val y3) * 10
                + digit_val y4)%Z in
      let m := (digit_val m1 * 10 + digit_val m2)%Z in
      if forallb is_digit [y1; y2; y3; y4; m1; m2] && (dash =? 0x2D)%N
         && (1678 <=? y)%Z && (y <=? 2261)%Z && (1 <=? m)%Z && (m <=? 12)%Z
      then Some (month_start y m) else None
  | _ => None
  end.

(** A month stamp prints as its "YYYY-MM" text, is read back from it
    and is an int64 value. *)
Definition ym_ok (y m : Z) : Prop :=
  strftime_Ym (month_start y m) = format_ym y m ∧
  parse_ym (format_ym y m) = Some (month_start y m) ∧
  int64 (month_start y m).

(** ** The library interface *)

Class Pandas := {
  (** [pd.to_datetime(s, errors="coerce")]: [None] when the call raises,
      otherwise one timestamp or [NaT] per entry. *)
  to_datetime : Series → option (list (option Z));
  (** [numpy.argsort(kind="quicksort")] on the int64 view of timestamps:
      not stable, so only its two defining properties are assumed. *)
  argsort : list Z → list nat;
  to_datetime_length s ts :
    to_datetime s = Some ts → length ts = series_len s;
  (** A column of "YYYY-MM" strings and missing values converts to the
      starts of those months and [NaT]. *)
  to_datetime_ym l :
    Forall (λ o : option (list N), ∀ s, o = Some s → is_Some (parse_ym s)) l →
    to_datetime (SObject l) = Some ((λ o, o ≫= parse_ym) <$> l);
  argsort_perm l : argsort l ≡ₚ seq 0 (length l);
  argsort_sorted l : Sorted Z.le (omap (l !!.) (argsort l));
}.

(** [s] is a floating-point sum of the entries of [l]: the result of
    IEEE additions that take in every entry once, in some order and
    grouping, a zero being allowed as a start. *)
Inductive summation : list float → float → Prop :=
  | sum_zero : summation [] 0%float
  | sum_neg_zero : summation [] (-0)%float
  | sum_entry x : summation [x] x
  | sum_add l1 l2 a b :
      summation l1 a → summation l2 b →
      summation (l1 ++ l2) (PrimFloat.add a b)
  | sum_perm l1 l2 a : l1 ≡ₚ l2 → summation l1 a → summation l2 a.

(** [a] is an arithmetic mean of [vals]: a floating-point sum of the
    values divided by their number; NaN when there is none. *)
Definition mean_of (vals : list float) (a : float) : Prop :=
  match vals with
  | [] => PrimFloat.is_nan a = true
  | _ => ∃ s, summation vals s ∧
              a = PrimFloat.div s (float_of_nat (length vals))
  end.

(** The float64 reductions [Series.sum()] and [Series.mean()]
    ([skipna=True]). pandas leaves the missing entries out (it puts 0.0
    in their place) and sums with [numpy.add.reduce], whose order and
    grouping of the additions depend on the length of the column and on
    the build; [mean] divides such a sum by the number of entries that
    are not missing. *)
Class Reductions := {
  float_sum : list float → float;
  float_mean : list float → float;
  float_sum_summation l : summation (present l) (float_sum l);
  float_mean_mean_of l : mean_of (present l) (float_mean l);
}.

(** ** What the page shows, and how a run ends *)

Inductive event :=
  | StError (msg : str)
  | StWarning (msg : str).

Inductive Outcome :=
  | Stopped                      (** [st.stop()] after the error *)
  | Raised                       (** an uncaught Python exception *)
  | Prepared (df : DataFrame).   (** line 106 reached *)

(** "필수 열이 없습니다: " *)
Definition error_prefix : str :=
  [0xD544; 0xC218; 0x20; 0xC5F4; 0xC774; 0x20; 0xC5C6; 0xC2B5; 0xB2C8;
   0xB2E4; 0x3A; 0x20]%N.

(** [f"필수 열이 없습니다: {', '.join(missing)}"] *)
Definition error_message (missing : list str) : str :=
  error_prefix ++ join (py ", ") missing.

(** "일부 '월' 값이 날짜로 변환되지 않았습니다. (YYYY-MM 권장)" *)
Definition warning_message : str :=
  [0xC77C; 0xBD80; 0x20; 0x27; 0xC6D4; 0x27; 0x20; 0xAC12; 0xC774; 0x20;
   0xB0A0; 0xC9DC; 0xB85C; 0x20; 0xBCC0; 0xD658; 0xB418; 0xC9C0; 0x20;
   0xC54A; 0xC558; 0xC2B5; 0xB2C8; 0xB2E4; 0x2E; 0x20; 0x28; 0x59; 0x59;
   0x59; 0x59; 0x2D; 0x4D; 0x4D; 0x20; 0xAD8C; 0xC7A5; 0x29]%N.

(** ** Column operations *)

(** [s.isna().any()] *)
Definition isna_any (s : Series) : bool :=
  match s with
  | SObject l => existsb (λ o, negb (bool_decide (is_Some o))) l
  | SInt64 _ => false
  | SFloat64 l => existsb PrimFloat.is_nan l
  | SDatetime l => existsb (λ o, negb (bool_decide (is_Some o))) l
  end.

Definition has_str (l : list (option str)) : bool :=
  existsb (λ o, bool_decide (is_Some o)) l.

(** [a - b]. An object column that holds a string raises [TypeError];
    one that holds only missing values gives missing values. Datetime
    operands do not arise: the period column is the only datetime column
    and takes no part in arithmetic. *)
Definition series_sub (a b : Series) : option Series :=
  match a, b with
  | SInt64 x, SInt64 y => Some (SInt64 (zip_with sub64 x y))
  | SInt64 x, SFloat64 y =>
      Some (SFloat64 (zip_with PrimFloat.sub (float_of_int64 <$> x) y))
  | SFloat64 x, SInt64 y =>
      Some (SFloat64 (zip_with PrimFloat.sub x (float_of_int64 <$> y)))
  | SFloat64 x, SFloat64 y => Some (SFloat64 (zip_with PrimFloat.sub x y))
  | SObject x, SObject y =>
      if has_str x || has_str y then None else Some (SObject x)
  | SObject x, (SInt64 _ | SFloat64 _) | (SInt64 _ | SFloat64 _), SObject x =>
      if has_str x then None else Some (SObject x)
  | SDatetime _, _ | _, SDatetime _ => None
  end.

(** [s.cumsum()] *)
Definition series_cumsum (s : Series) : option Series :=
  match s with
  | SInt64 l => Some (SInt64 (cumsum64 l))
  | SFloat64 l => Some (SFloat64 (fcumsum l))
  | SObject l => if has_str l then None else Some (SObject l)
  | SDatetime _ => None
  end.

(** [s.dt.strftime("%Y-%m")]: [NaT] gives a missing label; the [.dt]
    accessor raises [AttributeError] on any other dtype. *)
Definition series_strftime (s : Series) : option Series :=
  match s with
  | SDatetime ts => Some (SObject ((λ t : option Z, strftime_Ym <$> t) <$> ts))
  | _ => None
  end.

(** [a[indexer]] *)
Definition take_list {A} (indexer : list nat) (l : list A) : list A :=
  omap (l !!.) indexer.

Definition take_series (indexer : list nat) (s : Series) : Series :=
  match s with
  | SObject l => SObject (take_list indexer l)
  | SInt64 l => SInt64 (take_list indexer l)
  | SFloat64 l => SFloat64 (take_list indexer l)
  | SDatetime l => SDatetime (take_list indexer l)
  end.

(** [df.take(indexer)] followed by [reset_index(drop=True)] *)
Definition take_rows (indexer : list nat) (df : DataFrame) : DataFrame :=
  prod_map id (take_series indexer) <$> df.

(** The dtypes on which [-] and [cumsum] are arithmetic. *)
Definition numeric (s : Series) : Prop :=
  match s with
  | SInt64 _ | SFloat64 _ => True
  | SObject _ | SDatetime _ => False
  end.

(** ** Preparation (lines 76-106) *)

Section pipeline.
Context `{Pandas}.

(** pandas' [nargsort] with [na_position="last"]: the positions of the
    parsed entries in the order [argsort] gives their values, then the
    positions of the [NaT] entries in their original order. *)
Definition nargsort (ts : list (option Z)) : list nat :=
  let idx := seq 0 (length ts) in
  let non_nans := omap id ts in
  let non_nan_idx := filter (λ i, ts !! i ≠ Some None) idx in
  let nan_idx := filter (λ i, ts !! i = Some None) idx in
  take_list (argsort non_nans) non_nan_idx ++ nan_idx.

(** Lines 102-106, on the sorted frame. *)
Definition derive_metrics (df : DataFrame) : option DataFrame :=
  revenue ← getitem df col_revenue;
  last_year ← getitem df col_last_year;
  delta ← series_sub revenue last_year;
  let df := setitem df col_delta delta in
  revenue ← getitem df col_revenue;
  cumulative ← series_cumsum revenue;
  let df := setitem df col_cumulative cumulative in
  month ← getitem df col_month;
  label ← series_strftime month;
  Some (setitem df col_label label).

(** Lines 92-106. The [try] keeps the column as it was when
    [to_datetime] raises; the warning is shown before anything else
    can fail. Sorting, the two derived columns and the label need no
    page output, and the label needs a datetime column, so a column
    that is still not one ends the run with an exception. *)
Definition parse_and_order (df : DataFrame) : list event * Outcome :=
  match getitem df col_month with
  | None => ([], Raised)
  | Some raw =>
      let month := match to_datetime raw with
                   | Some ts => SDatetime ts
                   | None => raw
                   end in
      let df := setitem df col_month month in
      let shown :=
        if isna_any month then [StWarning warning_message] else [] in
      match month with
      | SDatetime ts =>
          let df := take_rows (nargsort ts) df in
          match derive_metrics df with
          | Some df => (shown, Prepared df)
          | None => (shown, Raised)
          end
      | _ => (shown, Raised)
      end
  end.

(** Lines 76-106. *)
Definition prepare (df : DataFrame) : list event * Outcome :=
  let df := normalize_columns df in
  let missing := missing df in
  if bool_decide (missing = []) then parse_and_order df
  else ([StError (error_message missing)], Stopped).

End pipeline.

(** ** KPI cards (lines 111-121) *)

Section cards.
Context `{Reductions}.

Inductive scalar :=
  | VInt (z : Z)
  | VFloat (f : float)
  | VStr (s : str)
  | VTime (t : Z)
  | VNA.

(** [s.sum()] *)
Definition series_sum (s : Series) : option scalar :=
  match s with
  | SInt64 l => Some (VInt (sum64 l))
  | SFloat64 l => Some (VFloat (float_sum l))
  | SObject l => if has_str l then None else Some (VInt 0)
  | SDatetime _ => None
  end.

(** [s.mean()] *)
Definition series_mean (s : Series) : option scalar :=
  match s with
  | SInt64 l => Some (VFloat (float_mean (float_of_int64 <$> l)))
  | SFloat64 l => Some (VFloat (float_mean l))
  | SObject l => if has_str l then None else Some (VFloat PrimFloat.nan)
  | SDatetime _ => None
  end.

(** [s.idxmax()] and [s.idxmin()]; they raise on an empty column and
    on an object column. After [reset_index] labels are positions. *)
Definition series_idxmax (s : Series) : option nat :=
  match s with
  | SInt64 l => idxmax64 l
  | SFloat64 l => float_idxmax l
  | SObject _ | SDatetime _ => None
  end.

Definition series_idxmin (s : Series) : option nat :=
  match s with
  | SInt64 l => idxmin64 l
  | SFloat64 l => float_idxmin l
  | SObject _ | SDatetime _ => None
  end.

(** [df.loc[i, key]] *)
Definition loc (df : DataFrame) (i : nat) (key : str) : option scalar :=
  s ← getitem df key;
  match s with
  | SObject l => from_option VStr VNA <$> l !! i
  | SInt64 l => VInt <$> l !! i
  | SFloat64 l => VFloat <$> l !! i
  | SDatetime l => from_option VTime VNA <$> l !! i
  end.

Record Kpi := {
  total_revenue : scalar;          (** "올해 누적 매출" *)
  average_growth : scalar;         (** "평균 증감률" *)
  best_month : scalar * scalar;    (** "최고 매출 월": label, revenue *)
  worst_month : scalar * scalar;   (** "최저 매출 월": label, revenue *)
}.

Definition kpi (df : DataFrame) : option Kpi :=
  revenue ← getitem df col_revenue;
  total ← series_sum revenue;
  yoy ← getitem df col_yoy;
  average ← series_mean yoy;
  max_idx ← series_idxmax revenue;
  max_label ← loc df max_idx col_label;
  max_revenue ← loc df max_idx col_revenue;
  min_idx ← series_idxmin revenue;
  min_label ← loc df min_idx col_label;
  min_revenue ← loc df min_idx col_revenue;
  Some {| total_revenue := total; average_growth := average;
          best_month := (max_label, max_revenue);
          worst_month := (min_label, min_revenue) |}.

End cards.

(** ** Loading the table (lines 30-63) *)

(** The rows of [demo_dataframe]. *)
Definition demo_data : DataFrame :=
  [ (col_month, SObject (Some <$>
       [py "2024-01"; py "2024-02"; py "2024-03"; py "2024-04";
        py "2024-05"; py "2024-06"; py "2024-07"; py "2024-08";
        py "2024-09"; py "2024-10"; py "2024-11"; py "2024-12"]));
    (col_revenue, SInt64
       [12000000; 13500000; 11000000; 18000000; 21000000; 19000000;
        23000000; 22000000; 25000000; 26000000; 28000000; 24000000]%Z);
    (col_last_year, SInt64
       [10500000; 11200000; 12800000; 15200000; 18500000; 17000000;
        20000000; 19500000; 21000000; 22500000; 25000000; 21000000]%Z);
    (col_yoy, SFloat64
       [0x1.c99999999999ap+3; 0x1.48p+4; -0x1.c333333333333p+3;
        0x1.2666666666666p+4; 0x1.bp+3; 0x1.799999999999ap+3; 0x1.ep+3;
        0x1.999999999999ap+3; 0x1.3p+4; 0x1.f333333333333p+3; 0x1.8p+3;
        0x1.c99999999999ap+3]%float) ].

(** What survives from one run of the script to the next: the store
    behind [@st.cache_data]. *)
Record World := { demo_cache : option (list (list N * Series)) }.

Definition fresh : World := {| demo_cache := None |}.

(** [demo_dataframe()] under [@st.cache_data]: the first call builds the
    frame and stores it, later calls hand out a copy of the stored one. *)
Definition demo_dataframe (w : World) : World * DataFrame :=
  match demo_cache w with
  | Some df => (w, df)
  | None => ({| demo_cache := Some demo_data |}, demo_data)
  end.

(** The sidebar: the table read from the uploaded file, if any, and the
    state of the demo toggle. *)
Record Input := {
  uploaded : option (list (list N * Series));
  use_demo : bool;
}.

(** Lines 60-63. *)
Definition load (w : World) (inp : Input) : World * DataFrame :=
  match uploaded inp with
  | Some df => if negb (use_demo inp) then (w, df) else demo_dataframe w
  | None => demo_dataframe w
  end.

(** One run of the script up to line 106. Every later statement of the
    run works on the frame bound at line 83, a new object, so the stored
    demo frame is never written to. *)
Definition run `{Pandas} (w : World) (inp : Input)
    : World * (list event * Outcome) :=
  let '(w', df) := load w inp in (w', prepare df).

(** The world after the runs on the inputs of [history], from a start
    with nothing stored. *)
Definition after `{Pandas} (history : list Input) : World :=
  foldl (λ w inp, (run w inp).1) fresh history.

(** The raw input of a run: the uploaded table when there is one and the
    demo toggle is off, the demo rows otherwise. *)
Definition selected (inp : Input) : DataFrame :=
  match uploaded inp with
  | Some df => if negb (use_demo inp) then df else demo_data
  | None => demo_data
  end.

(** ** A reference implementation of the library interface *)

Definition by_value (p q : nat * Z) : Prop := (p.2 ≤ q.2)%Z.

#[local] Instance by_value_dec : RelDecision by_value.
Proof. intros p q. unfold by_value. apply _. Defined.

Definition ref_argsort (l : list Z) : list nat :=
  (merge_sort by_value (zip (seq 0 (length l)) l)).*1.

Definition ref_to_datetime (s : Series) : option (list (option Z)) :=
  match s with
  | SObject l => Some ((λ o, o ≫= parse_ym) <$> l)
  | SInt64 l => Some (Some <$> l)
  | SFloat64 l => Some ((λ _, None) <$> l)
  | SDatetime l => Some l
  end.

(** The library at the moment [now] (nanoseconds since the epoch): a
    period cell that reads "now" converts to that moment, as it does in
    pandas, where "today" is read off the clock as well. *)
Definition parse_cell (now : Z) (s : str) : option Z :=
  if bool_decide (s = py "now") then Some now else parse_ym s.

Definition ref_to_datetime_at (now : Z) (s : Series)
    : option (list (option Z)) :=
  match s with
  | SObject l => Some ((λ o, o ≫= parse_cell now) <$> l)
  | _ => ref_to_datetime s
  end.

(** Summation from left to right. *)
Definition ref_float_sum (l : list float) : float := fsum (present l).

Definition ref_float_mean (l : list float) : float :=
  match present l with
  | [] => PrimFloat.nan
  | vals => PrimFloat.div (fsum vals) (float_of_nat (length vals))
  end.

(** ** Vocabulary of the specification *)

(** The canonical field a (trimmed) raw name is a synonym of. *)
Definition field_of (name : str) : option str :=
  (λ p, p.2.1) <$> list_find (λ p : list N * list (list N), name ∈ p.2) colmap.

(** A raw column resolves the field [std]. *)
Definition resolves (std : str) (c : str) : Prop :=
  field_of (strip c) = Some std.

#[export] Instance resolves_dec std c : Decision (resolves std c).
Proof. unfold resolves. apply _. Defined.

(** The field [std] can be resolved from the raw column names. *)
Definition resolvable (cols : list str) (std : str) : Prop :=
  Exists (resolves std) cols.

#[export] Instance resolvable_dec cols std : Decision (resolvable cols std).
Proof. unfold resolvable. apply _. Defined.

(** The required fields no raw column resolves. *)
Definition unresolved (df : DataFrame) : list str :=
  filter (λ std, ¬ resolvable (columns df) std) required.

(** The first raw column, in column order, whose trimmed name is one of
    [alts], with its position. *)
Definition first_match (alts : list str) (cols : list str)
    : option (nat * list N) :=
  list_find (λ c, strip c ∈ alts) cols.

(** [best], at position [best_i] of the entries seen so far, is beaten by
    none of them and beats all those before it. *)
Definition leader {A} (beats : A → A → Prop) (seen : list A) (best_i : nat)
    (best : A) : Prop :=
  seen !! best_i = Some best ∧
  (∀ j x, seen !! j = Some x → ¬ beats x best) ∧
  (∀ j x, j < best_i → seen !! j = Some x → beats best x).

(** What [derive_metrics] read and wrote. *)
Record Derived (df out : list (list N * Series)) := {
  d_revenue : Series;
  d_last_year : Series;
  d_month : Series;
  d_delta : Series;
  d_cumulative : Series;
  d_label : Series;
  d_get_revenue : getitem df col_revenue = Some d_revenue;
  d_get_last_year : getitem df col_last_year = Some d_last_year;
  d_get_month : getitem df col_month = Some d_month;
  d_sub : series_sub d_revenue d_last_year = Some d_delta;
  d_cumsum : series_cumsum d_revenue = Some d_cumulative;
  d_strftime : series_strftime d_month = Some d_label;
  d_out : out = setitem (setitem (setitem df col_delta d_delta)
                           col_cumulative d_cumulative) col_label d_label;
}.

(** The column is a datetime column after line 92: converted, or left as
    it already was when the conversion raised. *)
Definition parsed `{Pandas} (raw : Series) (ts : list (option Z)) : Prop :=
  to_datetime raw = Some ts ∨ (to_datetime raw = None ∧ raw = SDatetime ts).

(** Everything a successful preparation fixes about its result. *)
Record prepared_frame `{Pandas} (df : list (list N * Series))
    (evs : list event) (out : list (list N * Series))
    (raw : Series) (ts : list (option Z))
    (revenue last_year delta cumulative : Series) : Prop := {
  pf_resolved : unresolved df = [];
  pf_raw : getitem (normalize_columns df) col_month = Some raw;
  pf_parsed : parsed raw ts;
  pf_events :
    evs = if bool_decide (None ∈ ts) then [StWarning warning_message] else [];
  pf_month :
    getitem out col_month = Some (SDatetime (take_list (nargsort ts) ts));
  pf_other key :
    key ∉ [col_month; col_delta; col_cumulative; col_label] →
    getitem out key =
      take_series (nargsort ts) <$> getitem (normalize_columns df) key;
  pf_revenue : getitem out col_revenue = Some revenue;
  pf_last_year : getitem out col_last_year = Some last_year;
  pf_sub : series_sub revenue last_year = Some delta;
  pf_cumsum : series_cumsum revenue = Some cumulative;
  pf_delta s : (col_delta, s) ∈ out ↔ s = delta;
  pf_cumulative s : (col_cumulative, s) ∈ out ↔ s = cumulative;
  pf_label s :
    (col_label, s) ∈ out ↔
    s = SObject ((λ t : option Z, strftime_Ym <$> t) <$>
                   take_list (nargsort ts) ts);
}.

(** The warning tells how many periods failed to parse: some reading
    [count_of] of what the page shows gives that number. *)
Definition warning_carries_count `{Pandas} (count_of : event → nat)
    (df : DataFrame) : Prop :=
  ∀ raw ts e,
    getitem (normalize_columns df) col_month = Some raw →
    to_datetime raw = Some ts →
    e ∈ (prepare df).1 →
    count_of e = length (filter (λ t, t = None) ts).

(** The column holds a value: an integer, or a float that is not
    missing. *)
Definition has_value (s : Series) : Prop :=
  match s with
  | SInt64 l => l ≠ []
  | SFloat64 l => present l ≠ []
  | SObject _ | SDatetime _ => False
  end.

(** Every entry of the cumulative column is the sum, as [sum] computes
    it, of the revenue entries up to and including its position. *)
Definition cumulative_is_sum (sum : list float → float)
    (out : list (list N * Series)) : Prop :=
  ∀ xs cum i,
    getitem out col_revenue = Some (SFloat64 xs) →
    getitem out col_cumulative = Some (SFloat64 cum) →
    i < length xs →
    cum !! i = Some (sum (take (S i) xs)).

(** The libraries of two runs convert the period column of [df] alike:
    its conversion does not depend on the moment of the run. *)
Definition clock_free (first second : Pandas) (df : list (list N * Series))
    : Prop :=
  ∀ raw, getitem (normalize_columns df) col_month = Some raw →
         @to_datetime first raw = @to_datetime second raw.

(** ** Sample tables *)

(** The two-row upload of the end-to-end example, English headers. *)
Definition table_upload : DataFrame :=
  [ (py "month", SObject [Some (py "2024-01"); Some (py "2024-02")]);
    (py "Revenue", SInt64 [12000000; 13500000]%Z);
    (py "PY", SInt64 [10500000; 11200000]%Z);
    (py "YoY", SFloat64 [0x1.c99999999999ap+3; 0x1.48p+4]%float) ].

(** Rows out of order, a header with surrounding blanks, a second
    column that also matches the period synonyms and a free column. *)
Definition table_unsorted : DataFrame :=
  [ (py "note", SObject [Some (py "c"); Some (py "a"); Some (py "b")]);
    (py " month ", SObject
       [Some (py "2024-03"); Some (py "2024-01"); Some (py "2024-02")]);
    (py "Month", SObject [Some (py "x"); Some (py "y"); Some (py "z")]);
    (py "revenue", SInt64 [30; 10; 20]%Z);
    (py "last_year", SInt64 [3; 1; 2]%Z);
    (py "yoy", SFloat64 [3; 1; 2]%float) ].

(** No column for the prior-year revenue and none for the growth rate. *)
Definition table_missing : DataFrame :=
  [ (py "month", SObject [Some (py "2024-01")]);
    (py "Revenue", SInt64 [12000000]%Z) ].

(** One period that is not a date, between two that are. *)
Definition table_bad_period : DataFrame :=
  [ (py "month", SObject
       [Some (py "2024-02"); Some (py "not-a-date"); Some (py "2024-01")]);
    (py "Revenue", SInt64 [20; 99; 10]%Z);
    (py "PY", SInt64 [2; 9; 1]%Z);
    (py "YoY", SFloat64 [2; 9; 1]%float) ].

(** Two periods that are not dates. *)
Definition table_bad_periods : DataFrame :=
  [ (py "month", SObject
       [Some (py "not-a-date"); Some (py "2024-01"); Some (py "soon")]);
    (py "Revenue", SInt64 [99; 10; 98]%Z);
    (py "PY", SInt64 [9; 1; 8]%Z);
    (py "YoY", SFloat64 [9; 1; 8]%float) ].

(** The frames the script prepares from [table_upload],
    [table_unsorted] and [table_bad_period]. *)
Definition prepared_upload : DataFrame :=
  [ (col_month, SDatetime
       [Some (month_start 2024 1); Some (month_start 2024 2)]);
    (col_revenue, SInt64 [12000000; 13500000]%Z);
    (col_last_year, SInt64 [10500000; 11200000]%Z);
    (col_yoy, SFloat64 [0x1.c99999999999ap+3; 0x1.48p+4]%float);
    (col_delta, SInt64 [1500000; 2300000]%Z);
    (col_cumulative, SInt64 [12000000; 25500000]%Z);
    (col_label, SObject [Some (py "2024-01"); Some (py "2024-02")]) ].

Definition prepared_unsorted : DataFrame :=
  [ (py "note", SObject [Some (py "a"); Some (py "b"); Some (py "c")]);
    (col_month, SDatetime
       [Some (month_start 2024 1); Some (month_start 2024 2);
        Some (month_start 2024 3)]);
    (py "Month", SObject [Some (py "y"); Some (py "z"); Some (py "x")]);
    (col_revenue, SInt64 [10; 20; 30]%Z);
    (col_last_year, SInt64 [1; 2; 3]%Z);
    (col_yoy, SFloat64 [1; 2; 3]%float);
    (col_delta, SInt64 [9; 18; 27]%Z);
    (col_cumulative, SInt64 [10; 30; 60]%Z);
    (col_label, SObject
       [Some (py "2024-01"); Some (py "2024-02"); Some (py "2024-03")]) ].

Definition prepared_bad_period : DataFrame :=
  [ (col_month, SDatetime
       [Some (month_start 2024 1); Some (month_start 2024 2); None]);
    (col_revenue, SInt64 [10; 20; 99]%Z);
    (col_last_year, SInt64 [1; 2; 9]%Z);
    (col_yoy, SFloat64 [1; 2; 9]%float);
    (col_delta, SInt64 [9; 18; 90]%Z);
    (col_cumulative, SInt64 [10; 30; 129]%Z);
    (col_label, SObject [Some (py "2024-01"); Some (py "2024-02"); None]) ].

(** A blank revenue cell in the second of three months. *)
Definition table_blank_revenue : list (list N * Series) :=
  [ (py "month", SObject
       [Some (py "2024-01"); Some (py "2024-02"); Some (py "2024-03")]);
    (py "Revenue", SFloat64 [1; PrimFloat.nan; 2]%float);
    (py "PY", SInt64 [1; 1; 1]%Z);
    (py "YoY", SFloat64 [0; 0; 100]%float) ].

Definition prepared_blank_revenue : list (list N * Series) :=
  [ (col_month, SDatetime
       [Some (month_start 2024 1); Some (month_start 2024 2);
        Some (month_start 2024 3)]);
    (col_revenue, SFloat64 [1; PrimFloat.nan; 2]%float);
    (col_last_year, SInt64 [1; 1; 1]%Z);
    (col_yoy, SFloat64 [0; 0; 100]%float);
    (col_delta, SFloat64 [0; PrimFloat.nan; 1]%float);
    (col_cumulative, SFloat64 [1; PrimFloat.nan; 3]%float);
    (col_label, SObject
       [Some (py "2024-01"); Some (py "2024-02"); Some (py "2024-03")]) ].

(** A blank revenue cell in the first month and the revenue -inf in the
    second. *)
Definition table_sunk : DataFrame :=
  [ (py "month", SObject [Some (py "2024-01"); Some (py "2024-02")]);
    (py "Revenue", SFloat64 [PrimFloat.nan; neg_infinity]%float);
    (py "PY", SInt64 [1; 1]%Z);
    (py "YoY", SFloat64 [0; 0]%float) ].

(** One row whose period cell is the word "now". *)
Definition table_now : list (list N * Series) :=
  [ (py "month", SObject [Some (py "now")]);
    (py "Revenue", SInt64 [10]%Z);
    (py "PY", SInt64 [1]%Z);
    (py "YoY", SFloat64 [1]%float) ].

(** * Column-name normalisation *)

Implicit Types (cols : list (list N)) (alts : list (list N)).
Implicit Types (c std name : list N) (d : gmap (list N) (list N)).
Implicit Types (df : list (list N * Series)).

Lemma scan_first_match std alts cols d :
  scan std alts cols d =
  match first_match alts cols with
  | Some (_, c) => <[c := std]> d
  | None => d
  end.
Proof.
  unfold first_match. induction cols as [|c cols IH]; [done|].
  cbn [scan list_find]. case_bool_decide as Hc.
  - by rewrite decide_True.
  - rewrite decide_False by done. rewrite IH.
    by destruct (list_find _ cols) as [[? ?]|].
Qed.

Lemma first_match_hit alts cols i c :
  first_match alts cols = Some (i, c) →
  cols !! i = Some c ∧ strip c ∈ alts.
Proof. intros Hf. by apply list_find_Some in Hf as (? & ? & _). Qed.

Lemma field_of_spec name std :
  field_of name = Some std ↔ ∃ alts, (std, alts) ∈ colmap ∧ name ∈ alts.
Proof.
  unfold field_of. split.
  - intros Hf. apply fmap_Some in Hf as ([i [s a]] & Hf & ->).
    apply list_find_Some in Hf as (Hi & Hin & _).
    exists a. split; [|done]. by eapply list_elem_of_lookup_2.
  - intros (alts & Hc & Hin).
    unfold colmap in *.
    repeat (apply elem_of_cons in Hc as [Hc|Hc]; [simplify_eq|]);
      [..|by apply elem_of_nil in Hc];
      repeat (apply elem_of_cons in Hin as [->|Hin]; [by vm_compute|]);
      by apply elem_of_nil in Hin.
Qed.

Lemma first_match_strip alts cols c :
  snd <$> first_match alts cols = Some c → strip c ∈ alts.
Proof.
  intros ([i c'] & Hf & ->)%fmap_Some. by apply first_match_hit in Hf as [_ ?].
Qed.

Lemma colmap_disjoint std1 alts1 std2 alts2 name :
  (std1, alts1) ∈ colmap → (std2, alts2) ∈ colmap →
  name ∈ alts1 → name ∈ alts2 → std1 = std2.
Proof.
  intros H1 H2 Hn1 Hn2.
  assert (field_of name = Some std1) as E1 by (apply field_of_spec; eauto).
  assert (field_of name = Some std2) as E2 by (apply field_of_spec; eauto).
  congruence.
Qed.

Lemma lookup_scan std alts cols d c :
  scan std alts cols d !! c =
  if decide (snd <$> first_match alts cols = Some c) then Some std else d !! c.
Proof.
  rewrite scan_first_match. destruct (first_match alts cols) as [[i c']|].
  - rewrite lookup_insert. repeat case_decide; by simplify_eq/=.
  - by case_decide.
Qed.

(** The dictionary built by the two loops, for any list of entries whose
    synonym lists are pairwise disjoint. *)
Lemma lookup_fold_scan (cm : list (list N * list (list N))) cols d c std :
  (∀ p q name, p ∈ cm → q ∈ cm → name ∈ p.2 → name ∈ q.2 → p.1 = q.1) →
  foldl (λ d '(std, alts), scan std alts cols d) d cm !! c = Some std ↔
  (∃ alts, (std, alts) ∈ cm ∧ snd <$> first_match alts cols = Some c) ∨
  (d !! c = Some std ∧
   ∀ p, p ∈ cm → snd <$> first_match p.2 cols ≠ Some c).
Proof.
  revert d. induction cm as [|[s a] cm IH]; intros d Hdisj; simpl.
  { split; [intros ?; right; split; [done|by intros ? ?%elem_of_nil]|].
    intros [(? & ?%elem_of_nil & _)|[? _]]; done. }
  rewrite IH by (intros p q name ? ?; apply Hdisj; by right).
  rewrite lookup_scan. split.
  - intros [(alts & Hin & Hf)|[Hl Hno]].
    + left. exists alts. split; [by right|done].
    + case_decide as Hhit.
      * left. exists a. simplify_eq. split; [by left|done].
      * right. split; [done|]. intros p [->|Hp]%elem_of_cons; [done|by apply Hno].
  - intros [(alts & [Heq|Hin]%elem_of_cons & Hf)|[Hl Hno]].
    + injection Heq as -> ->.
      destruct (decide (Exists (λ p, snd <$> first_match p.2 cols = Some c) cm))
        as [Hex|Hnex].
      * apply Exists_exists in Hex as ([s' a'] & Hin' & Hf'). left.
        exists a'. split; [|done].
        assert (s' = s) as ->; [|done].
        apply first_match_strip in Hf, Hf'.
        apply (Hdisj (s', a') (s, a) (strip c)); [by right|by left|done..].
      * right. rewrite decide_True by done. split; [done|].
        intros p Hp Hf'. apply Hnex, Exists_exists. eauto.
    + left. eauto.
    + right. split.
      * rewrite decide_False; [done|]. apply (Hno (s, a)). by left.
      * intros p Hp. apply Hno. by right.
Qed.

Lemma lookup_rename_dict cols c std :
  build_rename_dict cols !! c = Some std ↔
  ∃ alts, (std, alts) ∈ colmap ∧ snd <$> first_match alts cols = Some c.
Proof.
  unfold build_rename_dict. rewrite lookup_fold_scan.
  - rewrite lookup_empty. split; [intros [?|[? _]]; done|by left].
  - intros [s1 a1] [s2 a2] name; simpl. apply colmap_disjoint.
Qed.

Lemma columns_rename d df :
  columns (rename d df) = (λ c, default c (d !! c)) <$> columns df.
Proof.
  unfold columns, rename. rewrite <-!list_fmap_compose.
  apply list_fmap_ext. by intros i [c s] _.
Qed.

Lemma data_rename d df : (rename d df).*2 = df.*2.
Proof.
  unfold rename. rewrite <-list_fmap_compose.
  apply list_fmap_ext. by intros i [c s] _.
Qed.

Lemma required_colmap std :
  std ∈ required →
  (∃ alts, (std, alts) ∈ colmap) ∧ strip std = std ∧ field_of std = Some std.
Proof.
  intros Hin. split.
  - change required with (colmap.*1) in Hin.
    apply list_elem_of_fmap in Hin as ([s a] & -> & ?). eauto.
  - unfold required in Hin.
    repeat (apply elem_of_cons in Hin as [->|Hin]; [by vm_compute|]).
    by apply elem_of_nil in Hin.
Qed.

Lemma colmap_functional std alts1 alts2 :
  (std, alts1) ∈ colmap → (std, alts2) ∈ colmap → alts1 = alts2.
Proof.
  intros H1 H2. unfold colmap in H1, H2.
  repeat (apply elem_of_cons in H1 as [H1|H1]; [injection H1 as -> ->|]);
    [..|by apply elem_of_nil in H1];
  repeat (apply elem_of_cons in H2 as [H2|H2];
          [first [by injection H2 as ->|by vm_compute in H2]|]);
  by apply elem_of_nil in H2.
Qed.

Lemma resolvable_first_match cols std alts :
  (std, alts) ∈ colmap →
  resolvable cols std ↔ is_Some (first_match alts cols).
Proof.
  intros Hc. unfold resolvable, resolves, first_match. split.
  - intros (c & Hin & Hf)%Exists_exists.
    apply field_of_spec in Hf as (alts' & Hc' & Hs).
    apply (list_find_elem_of _ _ c); [done|].
    destruct (decide (strip c ∈ alts)) as [|Hn]; [done|].
    by rewrite (colmap_functional _ _ _ Hc Hc') in Hn.
  - intros [[i c] Hf]. apply list_find_Some in Hf as (Hi & Hs & _).
    apply Exists_exists. exists c. split; [by eapply list_elem_of_lookup_2|].
    apply field_of_spec. eauto.
Qed.

(** After renaming, a required name labels a column exactly when some
    raw column resolves it. *)
Lemma required_in_normalized df std :
  std ∈ required →
  std ∈ columns (normalize_columns df) ↔ resolvable (columns df) std.
Proof.
  intros Hreq. destruct (required_colmap _ Hreq) as ((alts & Hc) & Hstrip & Hfield).
  unfold normalize_columns. rewrite columns_rename. split.
  - intros (c & Hdef & Hin)%list_elem_of_fmap.
    destruct (build_rename_dict (columns df) !! c) as [s|] eqn:Hl; simpl in Hdef.
    + subst s. apply lookup_rename_dict in Hl as (alts' & Hc' & Hf).
      apply (resolvable_first_match _ _ alts'); [done|].
      apply fmap_Some in Hf as (? & -> & _). done.
    + subst c. apply Exists_exists. exists std. split; [done|].
      unfold resolves. by rewrite Hstrip.
  - intros Hres. apply (resolvable_first_match _ _ alts) in Hres as [[i c] Hf]; [|done].
    apply list_elem_of_fmap. exists c. split.
    + assert (build_rename_dict (columns df) !! c = Some std) as ->; [|done].
      apply lookup_rename_dict. exists alts. split; [done|]. by rewrite Hf.
    + apply first_match_hit in Hf as [Hi _]. by eapply list_elem_of_lookup_2.
Qed.

Lemma filter_ext_elem_of {A} (P Q : A → Prop)
    `{!∀ x, Decision (P x), !∀ x, Decision (Q x)} (l : list A) :
  (∀ x, x ∈ l → P x ↔ Q x) → filter P l = filter Q l.
Proof.
  induction l as [|a l IH]; intros HPQ; [done|].
  rewrite !filter_cons, IH by (intros; apply HPQ; by right).
  assert (P a ↔ Q a) as Ha by (apply HPQ; by left).
  destruct (decide (P a)), (decide (Q a)); tauto.
Qed.

Lemma missing_unresolved df : missing (normalize_columns df) = unresolved df.
Proof.
  unfold missing, unresolved. apply filter_ext_elem_of.
  intros std Hreq. by rewrite required_in_normalized.
Qed.

Lemma prepare_stopped `{Pandas} df :
  unresolved df ≠ [] →
  prepare df = ([StError (error_message (unresolved df))], Stopped).
Proof.
  intros Hne. unfold prepare. rewrite missing_unresolved.
  by rewrite bool_decide_false.
Qed.

Lemma elem_of_unresolved df std :
  std ∈ unresolved df ↔ std ∈ required ∧ ¬ resolvable (columns df) std.
Proof. unfold unresolved. rewrite list_elem_of_filter. tauto. Qed.

(** * The calendar *)

Lemma ym_check_all :
  forallb (λ y, forallb (λ m, bool_decide (ym_ok y m)) (seqZ 1 12))
    (seqZ 1678 584) = true.
Proof. vm_compute. reflexivity. Qed.

Lemma in_seqZ (x a n : Z) : (a ≤ x < a + n)%Z → In x (seqZ a n).
Proof. intros Hx. apply list_elem_of_In, elem_of_seqZ, Hx. Qed.

(** Checked month by month over the whole [datetime64[ns]] range. *)
Lemma month_start_round_trip y m : ym_valid y m → ym_ok y m.
Proof.
  intros [Hy Hm]. pose proof ym_check_all as Hall.
  rewrite forallb_forall in Hall. specialize (Hall y).
  rewrite forallb_forall in Hall.
  assert (In y (seqZ 1678 584)) as Hiy by (apply in_seqZ; lia).
  assert (In m (seqZ 1 12)) as Him by (apply in_seqZ; lia).
  specialize (Hall Hiy m Him).
  apply bool_decide_eq_true in Hall. exact Hall.
Qed.

(** * The reference implementation satisfies the interface *)

Lemma ref_to_datetime_length s ts :
  ref_to_datetime s = Some ts → length ts = series_len s.
Proof. destruct s; intros [= <-]; simpl; by rewrite ?length_fmap. Qed.

Lemma omap_lookup_fst {A} (l : list A) (ps : list (nat * A)) :
  Forall (λ p, l !! p.1 = Some p.2) ps → omap (l !!.) ps.*1 = ps.*2.
Proof.
  induction 1 as [|[i x] ps Hp _ IH]; [done|].
  cbn [fmap list_fmap omap list_omap fst snd] in *. by rewrite Hp, IH.
Qed.

Lemma zip_seq_lookup {A} (l : list A) j :
  Forall (λ p, j + length l > p.1 ∧ l !! (p.1 - j) = Some p.2 ∧ j ≤ p.1)
    (zip (seq j (length l)) l).
Proof.
  revert j. induction l as [|x l IH]; intros j; simpl; constructor.
  - simpl. rewrite Nat.sub_diag. split_and!; [lia|done|lia].
  - eapply Forall_impl; [apply (IH (S j))|]. intros [i y] (? & ? & ?); simpl in *.
    replace (i - j) with (S (i - S j)) by lia. split_and!; [lia|done|lia].
Qed.

Lemma ref_argsort_perm l : ref_argsort l ≡ₚ seq 0 (length l).
Proof.
  unfold ref_argsort. rewrite merge_sort_Permutation.
  by rewrite fst_zip by (rewrite length_seq; lia).
Qed.

Lemma ref_argsort_sorted l : Sorted Z.le (omap (l !!.) (ref_argsort l)).
Proof.
  unfold ref_argsort. rewrite omap_lookup_fst.
  - apply (Sorted_fmap _ by_value); [done|].
    assert (Total by_value) by (intros p q; unfold by_value; lia).
    by apply (Sorted_merge_sort by_value).
  - rewrite merge_sort_Permutation.
    eapply Forall_impl; [apply (zip_seq_lookup l 0)|].
    intros [i x] (_ & Hl & _); simpl in *. by rewrite Nat.sub_0_r in Hl.
Qed.

#[export] Instance ref_pandas : Pandas := {|
  to_datetime := ref_to_datetime;
  argsort := ref_argsort;
  to_datetime_length := ref_to_datetime_length;
  to_datetime_ym := λ l _, eq_refl;
  argsort_perm := ref_argsort_perm;
  argsort_sorted := ref_argsort_sorted;
|}.

Lemma ref_to_datetime_at_length now s ts :
  ref_to_datetime_at now s = Some ts → length ts = series_len s.
Proof. destruct s; intros [= <-]; simpl; by rewrite ?length_fmap. Qed.

Lemma parse_cell_ym now s : is_Some (parse_ym s) → parse_cell now s = parse_ym s.
Proof.
  intros [t Ht]. unfold parse_cell. case_bool_decide as Hs; [|done].
  subst s. by vm_compute in Ht.
Qed.

Lemma ref_to_datetime_at_ym now (l : list (option (list N))) :
  Forall (λ o : option (list N), ∀ s, o = Some s → is_Some (parse_ym s)) l →
  ref_to_datetime_at now (SObject l) = Some ((λ o, o ≫= parse_ym) <$> l).
Proof.
  intros Hl. simpl. f_equal. apply Forall_fmap_ext_1.
  eapply Forall_impl; [exact Hl|]. intros [s|] Hs; [|done]. simpl.
  apply parse_cell_ym. by apply Hs.
Qed.

(** The library at the moment [now]. *)
Definition pandas_at (now : Z) : Pandas := {|
  to_datetime := ref_to_datetime_at now;
  argsort := ref_argsort;
  to_datetime_length := ref_to_datetime_at_length now;
  to_datetime_ym := ref_to_datetime_at_ym now;
  argsort_perm := ref_argsort_perm;
  argsort_sorted := ref_argsort_sorted;
|}.

(** * Frames: reading and writing columns *)

Lemma getitem_Some df key s :
  getitem df key = Some s ↔ filter (λ p, p.1 = key) df = [(key, s)].
Proof.
  unfold getitem. split.
  - destruct (filter _ df) as [|[k s'] [|??]] eqn:E; intros [= ->].
    assert ((k, s) ∈ filter (λ p, p.1 = key) df) as Hin by (rewrite E; by left).
    apply list_elem_of_filter in Hin as [Hk _]. simpl in Hk. by subst k.
  - by intros ->.
Qed.

Lemma getitem_elem_of df key s : getitem df key = Some s → (key, s) ∈ df.
Proof.
  intros Hg%getitem_Some.
  assert ((key, s) ∈ filter (λ p, p.1 = key) df) as Hin by (rewrite Hg; by left).
  by apply list_elem_of_filter in Hin as [_ ?].
Qed.

Lemma getitem_fmap_data (f : Series → Series) df key :
  getitem (prod_map id f <$> df) key = f <$> getitem df key.
Proof.
  unfold getitem.
  assert (filter (λ p, p.1 = key) (prod_map id f <$> df) =
          prod_map id f <$> filter (λ p, p.1 = key) df) as ->.
  { induction df as [|[k s] df IH]; [done|]. csimpl.
    rewrite !filter_cons. simpl. case_decide; csimpl; by rewrite IH. }
  by destruct (filter _ df) as [|[k s] [|??]].
Qed.

Lemma getitem_take_rows indexer df key :
  getitem (take_rows indexer df) key = take_series indexer <$> getitem df key.
Proof. apply getitem_fmap_data. Qed.

Lemma filter_setitem_ne df key key' s :
  key' ≠ key →
  filter (λ p, p.1 = key') (setitem df key s) = filter (λ p, p.1 = key') df.
Proof.
  intros Hne. unfold setitem. case_bool_decide as Hin.
  - clear Hin. induction df as [|[k s'] df IH]; [done|]. csimpl.
    destruct (decide (k = key)) as [->|Hk].
    + rewrite bool_decide_true by done.
      by rewrite !filter_cons_False by (simpl; congruence).
    + rewrite bool_decide_false by done. rewrite !filter_cons, IH. done.
  - rewrite filter_app, filter_cons_False, filter_nil, app_nil_r; [done|].
    simpl. congruence.
Qed.

Lemma getitem_setitem_ne df key key' s :
  key' ≠ key → getitem (setitem df key s) key' = getitem df key'.
Proof. intros Hne. unfold getitem. by rewrite filter_setitem_ne. Qed.

Lemma elem_of_setitem_ne df key key' s s' :
  key' ≠ key → (key', s') ∈ setitem df key s ↔ (key', s') ∈ df.
Proof.
  intros Hne.
  assert (∀ l : list (list N * Series),
            (key', s') ∈ l ↔ (key', s') ∈ filter (λ p, p.1 = key') l) as Hf.
  { intros l. rewrite list_elem_of_filter. tauto. }
  by rewrite (Hf (setitem _ _ _)), (Hf df), filter_setitem_ne.
Qed.

(** After [df[key] = s] every column labelled [key] holds [s], and
    there is one. *)
Lemma elem_of_setitem_eq df key s s' :
  (key, s') ∈ setitem df key s ↔ s' = s.
Proof.
  unfold setitem. case_bool_decide as Hin.
  - rewrite list_elem_of_fmap. split.
    + intros ([k s''] & Heq & _). case_bool_decide; simplify_eq/=; done.
    + intros ->. apply list_elem_of_fmap in Hin as ([k s''] & -> & Hin).
      exists (k, s''). by rewrite bool_decide_true.
  - rewrite elem_of_app, list_elem_of_singleton. split.
    + intros [Hin'|[= ->]]; [|done]. destruct Hin.
      apply list_elem_of_fmap. by exists (key, s').
    + intros ->. by right.
Qed.

Lemma filter_setitem_eq df key s :
  key ∈ columns df →
  filter (λ p, p.1 = key) (setitem df key s) =
  (λ _, (key, s)) <$> filter (λ p, p.1 = key) df.
Proof.
  intros Hin. unfold setitem. rewrite bool_decide_true by done. clear Hin.
  induction df as [|[k s'] df IH]; [done|]. csimpl.
  destruct (decide (k = key)) as [->|Hk].
  - rewrite bool_decide_true by done.
    rewrite !filter_cons_True by done. csimpl. by rewrite IH.
  - rewrite bool_decide_false by done.
    by rewrite !filter_cons_False by done.
Qed.

Lemma getitem_setitem_eq df key s s0 :
  getitem df key = Some s0 → getitem (setitem df key s) key = Some s.
Proof.
  intros Hg. pose proof (getitem_elem_of _ _ _ Hg) as Hin.
  apply getitem_Some in Hg. apply getitem_Some.
  rewrite filter_setitem_eq, Hg; [done|].
  apply list_elem_of_fmap. by exists (key, s0).
Qed.

(** * Reordering rows *)

Lemma take_list_app {A} (i1 i2 : list nat) (l : list A) :
  take_list (i1 ++ i2) l = take_list i1 l ++ take_list i2 l.
Proof. apply omap_app. Qed.

Lemma take_list_fmap {A B} (f : A → B) (indexer : list nat) (l : list A) :
  take_list indexer (f <$> l) = f <$> take_list indexer l.
Proof.
  unfold take_list. induction indexer as [|i indexer IH]; [done|]. csimpl.
  rewrite list_lookup_fmap, IH. by destruct (l !! i).
Qed.

Lemma take_list_ext {A} (indexer : list nat) (l k : list A) :
  (∀ i, i ∈ indexer → l !! i = k !! i) → take_list indexer l = take_list indexer k.
Proof.
  intros Hext. unfold take_list. apply list_omap_ext, Forall2_same_length_lookup.
  split; [done|]. intros j i i' Hi Hi'. simplify_eq.
  apply Hext. by eapply list_elem_of_lookup_2.
Qed.

Lemma elem_of_seq_0 (n i : nat) : i ∈ seq 0 n ↔ i < n.
Proof. rewrite elem_of_seq. lia. Qed.

(** Selecting positions by a test on their entries filters the list. *)
Lemma take_list_filter {A} (Q : A → Prop) `{!∀ x, Decision (Q x)}
    (P : nat → Prop) `{!∀ i, Decision (P i)} (l : list A) :
  (∀ i x, l !! i = Some x → P i ↔ Q x) →
  take_list (filter P (seq 0 (length l))) l = filter Q l.
Proof.
  induction l as [|x l IH] using rev_ind; intros HPQ; [done|].
  rewrite length_app, Nat.add_1_r, seq_S, !filter_app, take_list_app. f_equal.
  - rewrite <-IH.
    + apply take_list_ext. intros i [_ Hi%elem_of_seq_0]%list_elem_of_filter.
      by apply lookup_app_l.
    + intros i y Hi. apply HPQ. by apply lookup_app_l_Some.
  - simpl. assert ((l ++ [x]) !! length l = Some x) as Hx
      by (by rewrite lookup_app_r, Nat.sub_diag).
    rewrite !filter_cons, !filter_nil. specialize (HPQ _ _ Hx).
    destruct (decide (P (length l))), (decide (Q x)); try tauto.
    unfold take_list. simpl. by rewrite Hx.
Qed.

Lemma take_list_all {A} (l : list A) : take_list (seq 0 (length l)) l = l.
Proof.
  induction l as [|x l IH] using rev_ind; [done|].
  rewrite length_app, Nat.add_1_r, seq_S, take_list_app. f_equal.
  - etrans; [|exact IH]. apply take_list_ext.
    intros i Hi%elem_of_seq_0. by apply lookup_app_l.
  - unfold take_list. simpl. by rewrite lookup_app_r, Nat.sub_diag.
Qed.

(** Taking a permutation of all positions gives a permutation. *)
Lemma take_list_Permutation {A} (indexer : list nat) (l : list A) :
  indexer ≡ₚ seq 0 (length l) → take_list indexer l ≡ₚ l.
Proof.
  intros Hp. rewrite <-(take_list_all l) at 2.
  unfold take_list. by rewrite Hp.
Qed.

Lemma take_list_valid {A} (indexer : list nat) (l : list A) :
  Forall (λ i, i < length l) indexer →
  Forall2 (λ i x, l !! i = Some x) indexer (take_list indexer l).
Proof.
  unfold take_list. induction 1 as [|i indexer Hi _ IH]; [constructor|].
  apply lookup_lt_is_Some in Hi as [x Hx]. csimpl. rewrite Hx. by constructor.
Qed.

Lemma take_list_take_list {A} (p indexer : list nat) (l : list A) :
  Forall (λ i, i < length l) indexer →
  take_list (take_list p indexer) l = take_list p (take_list indexer l).
Proof.
  intros Hv%take_list_valid. unfold take_list at 1 3.
  induction p as [|k p IH]; [done|]. csimpl.
  destruct (indexer !! k) as [i|] eqn:Hk.
  - destruct (Forall2_lookup_l _ _ _ _ _ Hv Hk) as (x & -> & Hx).
    csimpl. by rewrite Hx, IH.
  - assert (take_list indexer l !! k = None) as ->; [|done].
    apply lookup_ge_None. rewrite <-(Forall2_length _ _ _ Hv).
    by apply lookup_ge_None.
Qed.

Lemma filter_is_None (ts : list (option Z)) :
  filter (λ t, t = None) ts = replicate (length (filter (λ t, t = None) ts)) None.
Proof.
  induction ts as [|[t|] ts IH]; [done|..].
  - by rewrite filter_cons_False.
  - rewrite filter_cons_True by done. simpl. by rewrite <-IH.
Qed.

Lemma filter_not_None (ts : list (option Z)) :
  filter (λ t, t ≠ None) ts = Some <$> omap id ts.
Proof.
  induction ts as [|[t|] ts IH]; [done|..].
  - rewrite filter_cons_True by done. csimpl. by rewrite IH.
  - rewrite filter_cons_False by (by intros ?). done.
Qed.

Section nargsort.
Context `{Pandas}.

Lemma non_nan_idx_take (ts : list (option Z)) :
  take_list (filter (λ i, ts !! i ≠ Some None) (seq 0 (length ts))) ts =
  Some <$> omap id ts.
Proof.
  rewrite <-filter_not_None. apply take_list_filter.
  intros i x ->. split; congruence.
Qed.

Lemma nan_idx_take (ts : list (option Z)) :
  take_list (filter (λ i, ts !! i = Some None) (seq 0 (length ts))) ts =
  replicate (length (filter (λ t, t = None) ts)) None.
Proof.
  rewrite <-filter_is_None. apply take_list_filter.
  intros i x ->. split; congruence.
Qed.

Lemma idx_valid (P : nat → Prop) `{!∀ i, Decision (P i)} (n : nat) :
  Forall (λ i, i < n) (filter P (seq 0 n)).
Proof.
  apply Forall_forall. by intros i [_ ?%elem_of_seq_0]%list_elem_of_filter.
Qed.

Lemma non_nan_idx_length (ts : list (option Z)) :
  length (filter (λ i, ts !! i ≠ Some None) (seq 0 (length ts))) =
  length (omap id ts).
Proof.
  rewrite (Forall2_length _ _ _ (take_list_valid _ ts (idx_valid _ _))).
  by rewrite non_nan_idx_take, length_fmap.
Qed.

(** The sorted column: the parsed timestamps in ascending order, then
    one [NaT] for each entry that did not parse. *)
Lemma take_nargsort (ts : list (option Z)) :
  take_list (nargsort ts) ts =
  (Some <$> take_list (argsort (omap id ts)) (omap id ts)) ++
  replicate (length (filter (λ t, t = None) ts)) None.
Proof.
  unfold nargsort. rewrite take_list_app, nan_idx_take. f_equal.
  rewrite take_list_take_list by apply idx_valid.
  by rewrite non_nan_idx_take, take_list_fmap.
Qed.

Lemma nargsort_Permutation (ts : list (option Z)) :
  nargsort ts ≡ₚ seq 0 (length ts).
Proof.
  unfold nargsort. rewrite take_list_Permutation
    by (rewrite non_nan_idx_length; apply argsort_perm).
  rewrite (list_filter_iff (λ i, ts !! i = Some None)
             (λ i, ¬ ts !! i ≠ Some None)).
  - apply filter_app_complement.
  - intros i. split; [by intros ? ?|]. intros Hnn.
    by destruct (decide (ts !! i = Some None)).
Qed.

End nargsort.

(** * int64 arithmetic *)

Lemma wrap64_id z : int64 z → wrap64 z = z.
Proof. unfold int64, wrap64. intros ?. rewrite Z.mod_small; lia. Qed.

Lemma wrap64_int64 z : int64 (wrap64 z).
Proof.
  unfold int64, wrap64.
  pose proof (Z.mod_pos_bound (z + 2 ^ 63) (2 ^ 64)). lia.
Qed.

Lemma wrap64_add_l a b : wrap64 (wrap64 a + b) = wrap64 (a + b).
Proof.
  unfold wrap64. f_equal.
  replace (((a + 2 ^ 63) `mod` 2 ^ 64 - 2 ^ 63 + b + 2 ^ 63)%Z)
    with (((a + 2 ^ 63) `mod` 2 ^ 64 + b)%Z) by lia.
  rewrite Zplus_mod_idemp_l. f_equal. lia.
Qed.

Lemma foldl_add64 acc l :
  l ≠ [] → foldl add64 acc l = wrap64 (acc + Zsum l).
Proof.
  revert acc. induction l as [|x l IH]; intros acc Hne; [done|].
  simpl. destruct l as [|y l].
  - simpl. unfold add64. f_equal. lia.
  - rewrite IH by done. unfold add64. rewrite wrap64_add_l. f_equal.
    simpl. lia.
Qed.

Lemma sum64_wrap l : Forall int64 l → sum64 l = wrap64 (Zsum l).
Proof.
  destruct 1 as [|x l Hx _]; [done|]. simpl. destruct l as [|y l].
  - simpl. rewrite Z.add_0_r. by rewrite wrap64_id.
  - by rewrite foldl_add64.
Qed.

Lemma sum64_exact l : Forall int64 l → int64 (Zsum l) → sum64 l = Zsum l.
Proof. intros Hl Hs. by rewrite sum64_wrap, wrap64_id. Qed.

Lemma accumulate64_lookup acc l i :
  i < length l →
  accumulate64 acc l !! i = Some (foldl add64 acc (take (S i) l)).
Proof.
  revert acc i. induction l as [|x l IH]; intros acc i Hi; simpl in *; [lia|].
  destruct i as [|i]; [by destruct l|].
  simpl. rewrite IH by lia. done.
Qed.

Lemma length_accumulate64 acc l : length (accumulate64 acc l) = length l.
Proof. revert acc. induction l; intros; simpl; auto. Qed.

Lemma length_cumsum64 l : length (cumsum64 l) = length l.
Proof. destruct l; simpl; by rewrite ?length_accumulate64. Qed.

(** The prefix-sum property of [cumsum]. *)
Lemma cumsum64_lookup l i :
  i < length l → cumsum64 l !! i = Some (sum64 (take (S i) l)).
Proof.
  destruct l as [|x l]; simpl; [lia|]. intros Hi.
  destruct i as [|i]; [by destruct l|].
  simpl. by rewrite accumulate64_lookup by lia.
Qed.

(** * float64 running sums *)

Lemma faccumulate_lookup acc l i :
  i < length l →
  faccumulate acc l !! i = Some (foldl PrimFloat.add acc (take (S i) l)).
Proof.
  revert acc i. induction l as [|x l IH]; intros acc i Hi; simpl in *; [lia|].
  destruct i as [|i]; [by destruct l|].
  simpl. by rewrite IH by lia.
Qed.

Lemma length_faccumulate acc l : length (faccumulate acc l) = length l.
Proof. revert acc. induction l; intros; simpl; auto. Qed.

Lemma zip_with_no_nan (l res : list float) :
  Forall (λ x, PrimFloat.is_nan x = false) l → length res = length l →
  zip_with (λ x r, if PrimFloat.is_nan x then PrimFloat.nan else r) l res = res.
Proof.
  intros Hl. revert res. induction Hl as [|x l Hx _ IH]; intros [|r res] Hlen;
    simplify_eq/=; [done|]. by rewrite Hx, IH.
Qed.

(** Without missing entries the float64 [cumsum] is the running IEEE sum. *)
Lemma fcumsum_lookup l i :
  Forall (λ x, PrimFloat.is_nan x = false) l → i < length l →
  fcumsum l !! i = Some (fsum (take (S i) l)).
Proof.
  intros Hl Hi. unfold fcumsum.
  assert ((λ x, if PrimFloat.is_nan x then 0%float else x) <$> l = l) as ->.
  { clear Hi. induction Hl as [|x l Hx _ IH]; [done|]. csimpl.
    by rewrite Hx, IH. }
  rewrite zip_with_no_nan;
    [|done|by destruct l; simpl; rewrite ?length_faccumulate].
  destruct l as [|x l]; simpl in *; [lia|].
  destruct i as [|i]; [by destruct l|].
  simpl. by rewrite faccumulate_lookup by lia.
Qed.

Lemma fill_not_nan (v x : float) : PrimFloat.is_nan x = false → fill v x = x.
Proof. intros Hx. unfold fill. by rewrite Hx. Qed.

Lemma fmap_fill_not_nan (v : float) (l : list float) :
  Forall (λ x, PrimFloat.is_nan x = false) l → fill v <$> l = l.
Proof.
  induction 1 as [|x l Hx _ IH]; [done|]. csimpl.
  by rewrite IH, fill_not_nan.
Qed.

(** The float64 [cumsum]: missing where the entry is missing, elsewhere
    the running IEEE sum in which the missing entries count as 0.0. *)
Lemma fcumsum_lookup_fill l i x :
  l !! i = Some x →
  fcumsum l !! i =
    Some (if PrimFloat.is_nan x then PrimFloat.nan
          else fsum (take (S i) (fill 0 <$> l))).
Proof.
  intros Hx. unfold fcumsum.
  change (λ x, if PrimFloat.is_nan x then 0%float else x) with (fill 0).
  rewrite lookup_zip_with, Hx. simpl.
  assert (match fill 0 <$> l with
          | [] => []
          | y :: r => y :: faccumulate y r
          end !! i = Some (fsum (take (S i) (fill 0 <$> l)))) as ->; [|done].
  assert (i < length (fill 0 <$> l)) as Hi.
  { rewrite length_fmap. by eapply lookup_lt_Some. }
  destruct (fill 0 <$> l) as [|y r]; simpl in *; [lia|].
  destruct i as [|i]; [by destruct r|].
  simpl. by rewrite faccumulate_lookup by lia.
Qed.

Lemma length_fcumsum l : length (fcumsum l) = length l.
Proof.
  unfold fcumsum. rewrite length_zip_with.
  destruct l as [|x l]; [done|]. simpl.
  rewrite length_faccumulate, length_fmap. lia.
Qed.

(** * First position of the best entry *)

Section argbest.
Context {A : Type}.
Variable better : A → A → bool.
Variable beats : A → A → Prop.
Variable ok : A → Prop.
Hypothesis better_spec : ∀ x b, better x b = true ↔ beats x b.
Hypothesis beats_irrefl : ∀ x, ¬ beats x x.
Hypothesis beats_trans :
  ∀ x y z, ok z → beats y x → ¬ beats z x → beats y z.
Hypothesis beats_keep : ∀ x y z, beats y x → ¬ beats z x → ¬ beats z y.

Lemma argbest_leader seen best_i best l :
  Forall ok (seen ++ l) →
  leader beats seen best_i best →
  ∃ r, leader beats (seen ++ l)
         (argbest better best_i best (length seen) l) r.
Proof.
  revert seen best_i best.
  induction l as [|y l IH]; intros seen best_i best Hok Hl.
  { exists best. by rewrite app_nil_r. }
  simpl. replace (seen ++ y :: l) with ((seen ++ [y]) ++ l) in *
    by (by rewrite <-app_assoc).
  replace (S (length seen)) with (length (seen ++ [y]))
    by (rewrite length_app; simpl; lia).
  destruct Hl as (Hb & Hmax & Hfirst).
  assert (Forall ok seen) as Hseen.
  { by apply Forall_app in Hok as [[? _]%Forall_app _]. }
  destruct (better y best) eqn:E; (apply IH; [done|]).
  - apply better_spec in E. split_and!.
    + by rewrite lookup_app_r, Nat.sub_diag.
    + intros j x [Hj|[_ Hj]]%lookup_app_Some.
      * eauto.
      * apply list_lookup_singleton_Some in Hj as [_ <-]. apply beats_irrefl.
    + intros j x Hlt Hj. rewrite lookup_app_l in Hj by done.
      apply (beats_trans best); [|done|by eapply Hmax].
      rewrite Forall_forall in Hseen. apply Hseen.
      by eapply list_elem_of_lookup_2.
  - assert (¬ beats y best) as Hn by (rewrite <-better_spec; congruence).
    split_and!.
    + by apply lookup_app_l_Some.
    + intros j x [Hj|[_ Hj]]%lookup_app_Some; [eauto|].
      by apply list_lookup_singleton_Some in Hj as [_ <-].
    + intros j x Hlt Hj. apply lookup_lt_Some in Hb.
      rewrite lookup_app_l in Hj by lia. eauto.
Qed.

End argbest.

Lemma Forall_True {A} (l : list A) : Forall (λ _, True) l.
Proof. by apply Forall_forall. Qed.

Lemma idxmax64_spec l :
  l ≠ [] →
  ∃ i r, idxmax64 l = Some i ∧ leader (λ a b, (b < a)%Z) l i r.
Proof.
  destruct l as [|x l]; [done|]. intros _.
  destruct (argbest_leader (λ a b, (b <? a)%Z) (λ a b, (b < a)%Z) (λ _, True))
    with (seen := [x]) (best_i := 0) (best := x) (l := l)
    as (r & Hr).
  - intros a b. apply Z.ltb_lt.
  - intros a. lia.
  - intros a b c. lia.
  - intros a b c. lia.
  - apply Forall_True.
  - split_and!; [done| |intros; lia].
    intros j y Hj. apply list_lookup_singleton_Some in Hj as [_ <-]. lia.
  - by eexists _, r.
Qed.

Lemma idxmin64_spec l :
  l ≠ [] →
  ∃ i r, idxmin64 l = Some i ∧ leader (λ a b, (a < b)%Z) l i r.
Proof.
  destruct l as [|x l]; [done|]. intros _.
  destruct (argbest_leader (λ a b, (a <? b)%Z) (λ a b, (a < b)%Z) (λ _, True))
    with (seen := [x]) (best_i := 0) (best := x) (l := l)
    as (r & Hr).
  - intros a b. apply Z.ltb_lt.
  - intros a. lia.
  - intros a b c. lia.
  - intros a b c. lia.
  - apply Forall_True.
  - split_and!; [done| |intros; lia].
    intros j y Hj. apply list_lookup_singleton_Some in Hj as [_ <-]. lia.
  - by eexists _, r.
Qed.

(** * The order of float64 values *)

Lemma SFeqb_refl_finite s m e :
  SFeqb (S754_finite s m e) (S754_finite s m e) = true.
Proof.
  unfold SFeqb, SFcompare.
  destruct s; rewrite Z.compare_refl; fold (Pos.compare m m);
    by rewrite Pos.compare_refl.
Qed.

Lemma is_nan_Prim2SF (f : float) :
  PrimFloat.is_nan f = true ↔ Prim2SF f = S754_nan.
Proof.
  unfold PrimFloat.is_nan. rewrite FloatAxioms.eqb_spec.
  destruct (Prim2SF f) as [[]|[]| |s m e]; try done.
  by rewrite SFeqb_refl_finite.
Qed.

Lemma SFltb_rank (f g : spec_float) :
  f ≠ S754_nan → g ≠ S754_nan →
  SFltb f g = true ↔ lex_lt (rank f) (rank g).
Proof.
  intros Hf Hg. unfold SFltb, SFcompare, lex_lt.
  destruct f as [[]|[]| |[] m1 e1], g as [[]|[]| |[] m2 e2];
    try done; simpl; try (split; [intros; lia|done]);
    try (split; [done|intros; lia]).
  - fold (Pos.compare m1 m2).
    destruct (Z.compare_spec e1 e2), (Pos.compare_spec m1 m2);
      simpl; split; (done || lia).
  - fold (Pos.compare m1 m2).
    destruct (Z.compare_spec e1 e2), (Pos.compare_spec m1 m2);
      simpl; split; (done || lia).
Qed.

Lemma ltb_rank (x y : float) :
  PrimFloat.is_nan x = false → PrimFloat.is_nan y = false →
  PrimFloat.ltb x y = true ↔ lex_lt (rank (Prim2SF x)) (rank (Prim2SF y)).
Proof.
  intros Hx Hy. rewrite FloatAxioms.ltb_spec. apply SFltb_rank.
  - intros Hn%is_nan_Prim2SF. congruence.
  - intros Hn%is_nan_Prim2SF. congruence.
Qed.

Lemma ltb_not_nan (x y : float) :
  PrimFloat.ltb x y = true →
  PrimFloat.is_nan x = false ∧ PrimFloat.is_nan y = false.
Proof.
  rewrite FloatAxioms.ltb_spec. intros Hlt.
  split; apply not_true_is_false; intros Hn%is_nan_Prim2SF;
    rewrite Hn in Hlt; [done|]. unfold SFltb, SFcompare in Hlt.
  by destruct (Prim2SF x).
Qed.

Lemma ltb_irrefl (x : float) : PrimFloat.ltb x x = false.
Proof.
  apply not_true_is_false. intros Hlt.
  destruct (ltb_not_nan _ _ Hlt) as [Hx _].
  apply (ltb_rank x x Hx Hx) in Hlt. unfold lex_lt in Hlt. lia.
Qed.

Lemma ltb_trans (x y z : float) :
  PrimFloat.ltb x y = true → PrimFloat.ltb y z = true →
  PrimFloat.ltb x z = true.
Proof.
  intros Hxy Hyz.
  destruct (ltb_not_nan _ _ Hxy) as [Hx Hy].
  destruct (ltb_not_nan _ _ Hyz) as [_ Hz].
  apply (ltb_rank _ _ Hx Hy) in Hxy. apply (ltb_rank _ _ Hy Hz) in Hyz.
  apply (ltb_rank _ _ Hx Hz). unfold lex_lt in *. lia.
Qed.

(** Of two values that are not NaN, one is below the other or neither
    is: a value not above [x] is below everything above [x]. *)
Lemma ltb_le_lt (x y z : float) :
  PrimFloat.is_nan z = false →
  PrimFloat.ltb x y = true → PrimFloat.ltb x z = false →
  PrimFloat.ltb z y = true.
Proof.
  intros Hz Hxy Hxz.
  destruct (ltb_not_nan _ _ Hxy) as [Hx Hy].
  apply (ltb_rank _ _ Hx Hy) in Hxy. apply (ltb_rank _ _ Hz Hy).
  assert (¬ lex_lt (rank (Prim2SF x)) (rank (Prim2SF z))) as Hn.
  { rewrite <-(ltb_rank _ _ Hx Hz). congruence. }
  unfold lex_lt in *. lia.
Qed.

Lemma is_nan_fill (v x : float) :
  PrimFloat.is_nan v = false → PrimFloat.is_nan (fill v x) = false.
Proof. intros Hv. unfold fill. by destruct (PrimFloat.is_nan x) eqn:Hx. Qed.

Lemma forallb_is_nan_present (l : list float) :
  forallb PrimFloat.is_nan l = true ↔ present l = [].
Proof.
  unfold present. induction l as [|x l IH]; [done|].
  cbn [forallb]. rewrite filter_cons.
  case_decide as Hx; rewrite Hx || apply not_false_is_true in Hx; simpl.
  - done.
  - by rewrite Hx.
Qed.

Lemma float_idxmax_spec (l : list float) :
  present l ≠ [] →
  ∃ i r, float_idxmax l = Some i ∧
    leader (λ a b, PrimFloat.ltb b a = true) (fill neg_infinity <$> l) i r.
Proof.
  intros Hp. unfold float_idxmax.
  destruct (forallb PrimFloat.is_nan l) eqn:Hall.
  { by apply forallb_is_nan_present in Hall. }
  destruct l as [|x l]; [done|]. rewrite fmap_cons.
  destruct (argbest_leader (λ a b, PrimFloat.ltb b a)
              (λ a b, PrimFloat.ltb b a = true)
              (λ a, PrimFloat.is_nan a = false))
    with (seen := [fill neg_infinity x]) (best_i := 0)
         (best := fill neg_infinity x) (l := fill neg_infinity <$> l)
    as (r & Hr).
  - done.
  - intros a. by rewrite ltb_irrefl.
  - intros a b c Hc Hab Hca. apply (ltb_le_lt a); [done..|].
    by apply not_true_is_false.
  - intros a b c Hab Hca Hbc. apply Hca. by apply (ltb_trans a b c).
  - change (Forall (λ a, PrimFloat.is_nan a = false)
              (fill neg_infinity <$> x :: l)).
    apply Forall_fmap, Forall_forall. intros a _. by apply is_nan_fill.
  - split_and!; [done| |intros; lia].
    intros j y Hj. apply list_lookup_singleton_Some in Hj as [_ <-].
    by rewrite ltb_irrefl.
  - by eexists _, r.
Qed.

Lemma float_idxmin_spec (l : list float) :
  present l ≠ [] →
  ∃ i r, float_idxmin l = Some i ∧
    leader (λ a b, PrimFloat.ltb a b = true) (fill infinity <$> l) i r.
Proof.
  intros Hp. unfold float_idxmin.
  destruct (forallb PrimFloat.is_nan l) eqn:Hall.
  { by apply forallb_is_nan_present in Hall. }
  destruct l as [|x l]; [done|]. rewrite fmap_cons.
  destruct (argbest_leader (λ a b, PrimFloat.ltb a b)
              (λ a b, PrimFloat.ltb a b = true)
              (λ a, PrimFloat.is_nan a = false))
    with (seen := [fill infinity x]) (best_i := 0)
         (best := fill infinity x) (l := fill infinity <$> l)
    as (r & Hr).
  - done.
  - intros a. by rewrite ltb_irrefl.
  - intros a b c Hc Hba Hac.
    destruct (ltb_not_nan _ _ Hba) as [Hb Ha].
    apply (ltb_rank _ _ Hb Hc).
    apply (ltb_rank _ _ Hb Ha) in Hba.
    assert (¬ lex_lt (rank (Prim2SF c)) (rank (Prim2SF a))) as Hn.
    { rewrite <-(ltb_rank _ _ Hc Ha). done. }
    unfold lex_lt in *. lia.
  - intros a b c Hba Hac Hcb. apply Hac. by apply (ltb_trans c b a).
  - change (Forall (λ a, PrimFloat.is_nan a = false)
              (fill infinity <$> x :: l)).
    apply Forall_fmap, Forall_forall. intros a _. by apply is_nan_fill.
  - split_and!; [done| |intros; lia].
    intros j y Hj. apply list_lookup_singleton_Some in Hj as [_ <-].
    by rewrite ltb_irrefl.
  - by eexists _, r.
Qed.

Lemma present_filled (v y : float) (l : list float) :
  y ∈ present l → ∃ j, (fill v <$> l) !! j = Some y.
Proof.
  intros [Hy [j Hj]%list_elem_of_lookup]%list_elem_of_filter.
  exists j. rewrite list_lookup_fmap, Hj. simpl. by rewrite fill_not_nan.
Qed.

Lemma float_idx_None (l : list float) :
  present l = [] → float_idxmax l = None ∧ float_idxmin l = None.
Proof.
  intros Hp%forallb_is_nan_present. unfold float_idxmax, float_idxmin.
  by rewrite Hp.
Qed.

(** * The reference reductions *)

Lemma summation_foldl (l0 l : list float) (acc : float) :
  summation l0 acc → summation (l0 ++ l) (foldl PrimFloat.add acc l).
Proof.
  revert l0 acc. induction l as [|x l IH]; intros l0 acc Hacc; simpl.
  { by rewrite app_nil_r. }
  replace (l0 ++ x :: l) with ((l0 ++ [x]) ++ l) by (by rewrite <-app_assoc).
  apply IH. apply sum_add; [done|apply sum_entry].
Qed.

Lemma summation_fsum (l : list float) : summation l (fsum l).
Proof.
  destruct l as [|x l]; [apply sum_zero|].
  apply (summation_foldl [x] l x), sum_entry.
Qed.

Lemma ref_float_mean_mean_of (l : list float) :
  mean_of (present l) (ref_float_mean l).
Proof.
  unfold ref_float_mean, mean_of.
  destruct (present l) as [|x vals]; [done|].
  eexists. split; [apply summation_fsum|done].
Qed.

#[export] Instance ref_reductions : Reductions := {|
  float_sum := ref_float_sum;
  float_mean := ref_float_mean;
  float_sum_summation := λ l, summation_fsum (present l);
  float_mean_mean_of := ref_float_mean_mean_of;
|}.

(** * Claims on column-name normalisation *)

(** C1. When some required field is resolved by no raw column under any
    of its synonyms, preparation shows the missing-columns error and
    stops: the message lists exactly the required fields that no column
    resolves, nothing else is shown, and the run does not end with a
    prepared frame, so no derived column is ever computed. *)
Theorem missing_columns_stop `{Pandas} df std :
  std ∈ required → ¬ resolvable (columns df) std →
  prepare df = ([StError (error_message (unresolved df))], Stopped) ∧
  (∀ f, f ∈ unresolved df ↔ f ∈ required ∧ ¬ resolvable (columns df) f) ∧
  (∀ out, (prepare df).2 ≠ Prepared out).
Proof.
  intros Hreq Hres.
  assert (prepare df = ([StError (error_message (unresolved df))], Stopped))
    as Hstop.
  { apply prepare_stopped. intros Hnil.
    assert (std ∈ unresolved df) as Hin by by apply elem_of_unresolved.
    rewrite Hnil in Hin. by apply elem_of_nil in Hin. }
  split_and!; [done|apply elem_of_unresolved|by rewrite Hstop].
Qed.

Lemma missing_columns_stop_witness :
  col_yoy ∈ required ∧ ¬ resolvable (columns table_missing) col_yoy ∧
  prepare table_missing =
    ([StError (error_prefix ++ col_last_year ++ py ", " ++ col_yoy)], Stopped).
Proof.
  assert (col_yoy ∈ required) as H1 by compute_done.
  assert (¬ resolvable (columns table_missing) col_yoy) as H2
    by compute_done.
  split_and!; [done..|].
  destruct (missing_columns_stop table_missing col_yoy H1 H2) as (-> & _).
  reflexivity.
Defined.

Lemma lookup_columns_normalized df i c :
  columns df !! i = Some c →
  columns (normalize_columns df) !! i =
    Some (default c (build_rename_dict (columns df) !! c)).
Proof.
  intros Hi. unfold normalize_columns.
  by rewrite columns_rename, list_lookup_fmap, Hi.
Qed.

Lemma rename_dict_key_resolves cols c std :
  build_rename_dict cols !! c = Some std → resolves std c.
Proof.
  intros (alts & Hc & Hf)%lookup_rename_dict.
  apply field_of_spec. exists alts. split; [done|].
  by apply first_match_strip in Hf.
Qed.

(** When every raw column resolves a field and no two resolve the same
    one, each column is the first match of its field. *)
Lemma lookup_rename_dict_unique cols c std :
  NoDup ((λ c, field_of (strip c)) <$> cols) →
  c ∈ cols → resolves std c → build_rename_dict cols !! c = Some std.
Proof.
  intros Hnd Hin Hres. pose proof Hres as (alts & Hc & Hs)%field_of_spec.
  apply lookup_rename_dict. exists alts. split; [done|].
  destruct (list_find_elem_of (λ c, strip c ∈ alts) cols c Hin Hs)
    as [[i c'] Hf].
  unfold first_match. rewrite Hf. simpl. f_equal.
  apply list_find_Some in Hf as (Hi & Hs' & _).
  assert (resolves std c') as Hres' by (apply field_of_spec; eauto).
  apply list_elem_of_lookup in Hin as [j Hj].
  assert (i = j) as ->; [|congruence].
  eapply NoDup_lookup; [done|..]; rewrite list_lookup_fmap.
  - by rewrite Hi.
  - rewrite Hj. simpl. unfold resolves in *. congruence.
Qed.

Lemma filter_nil_elem_of {A} (P : A → Prop) `{!∀ x, Decision (P x)}
    (l : list A) :
  (∀ x, x ∈ l → ¬ P x) → filter P l = [].
Proof.
  induction l as [|a l IH]; intros Hn; [done|].
  rewrite filter_cons_False by (apply Hn; by left).
  apply IH. intros x ?. apply Hn. by right.
Qed.

(** C5. When every required field is resolved by some raw column, under
    whichever synonym spelling, the normalised table carries each of the
    four canonical names and the missing-column check finds nothing. If
    moreover the raw table consists of such columns only, one per field,
    its labels after normalisation are exactly the four canonical names. *)
Theorem normalize_columns_canonical df :
  (∀ std, std ∈ required → resolvable (columns df) std) →
  (∀ std, std ∈ required → std ∈ columns (normalize_columns df)) ∧
  missing (normalize_columns df) = [] ∧
  ((∀ c, c ∈ columns df → is_Some (field_of (strip c))) →
   NoDup ((λ c, field_of (strip c)) <$> columns df) →
   columns (normalize_columns df) ≡ₚ required).
Proof.
  intros Hall.
  assert (∀ std, std ∈ required → std ∈ columns (normalize_columns df))
    as Hin by (intros std Hreq; apply required_in_normalized; auto).
  split_and!; [done| |].
  - apply filter_nil_elem_of. intros std Hreq Hn. by apply Hn, Hin.
  - intros Hevery Hnd.
    assert (columns (normalize_columns df) =
            (λ c, default c (field_of (strip c))) <$> columns df) as Heq.
    { unfold normalize_columns. rewrite columns_rename.
      apply list_fmap_ext. intros i c Hi.
      destruct (Hevery c) as [std Hf]; [by eapply list_elem_of_lookup_2|].
      rewrite Hf.
      by rewrite (lookup_rename_dict_unique _ c std Hnd)
        by (done || by eapply list_elem_of_lookup_2). }
    apply NoDup_Permutation.
    + rewrite Heq.
      apply (NoDup_fmap_1 Some). rewrite <-list_fmap_compose.
      erewrite list_fmap_ext; [exact Hnd|].
      intros i c Hi. simpl.
      destruct (Hevery c) as [std Hf]; [by eapply list_elem_of_lookup_2|].
      by rewrite Hf.
    + compute_done.
    + intros std. split; [|apply Hin].
      rewrite Heq. intros (c & -> & Hc)%list_elem_of_fmap.
      destruct (Hevery c Hc) as [s Hf]. rewrite Hf. simpl.
      apply field_of_spec in Hf as (alts & Hcm & _).
      change required with (colmap.*1). apply list_elem_of_fmap.
      by exists (s, alts).
Qed.

Lemma normalize_columns_canonical_witness :
  (∀ std, std ∈ required → resolvable (columns table_upload) std) ∧
  columns (normalize_columns table_upload) ≡ₚ required.
Proof.
  assert (∀ std, std ∈ required → resolvable (columns table_upload) std)
    as Hall.
  { intros std Hin. unfold required in Hin.
    repeat (apply elem_of_cons in Hin as [->|Hin];
            [compute_done|]).
    by apply elem_of_nil in Hin. }
  split; [done|].
  apply (normalize_columns_canonical table_upload Hall).
  - intros c Hin. unfold table_upload in Hin. simpl in Hin.
    repeat (apply elem_of_cons in Hin as [->|Hin]; [by eexists|]).
    by apply elem_of_nil in Hin.
  - compute_done.
Defined.

(** C6. For each canonical field, the first raw column in column order
    whose trimmed name is one of the field's synonyms becomes the key of
    [rename_dict] and is renamed to the canonical name; every other
    column that matches the same field is not a key and keeps its name
    (with distinct raw labels, as a CSV header gives them: every column
    at another position). *)
Theorem first_match_wins df std alts i c :
  (std, alts) ∈ colmap →
  columns df !! i = Some c → strip c ∈ alts →
  (∀ j c', j < i → columns df !! j = Some c' → strip c' ∉ alts) →
  build_rename_dict (columns df) !! c = Some std ∧
  columns (normalize_columns df) !! i = Some std ∧
  (∀ j c', columns df !! j = Some c' → strip c' ∈ alts → c' ≠ c →
     build_rename_dict (columns df) !! c' = None ∧
     columns (normalize_columns df) !! j = Some c') ∧
  (NoDup (columns df) →
   ∀ j c', j ≠ i → columns df !! j = Some c' → strip c' ∈ alts →
     columns (normalize_columns df) !! j = Some c').
Proof.
  intros Hc Hi Hs Hfirst.
  cut (build_rename_dict (columns df) !! c = Some std ∧
       columns (normalize_columns df) !! i = Some std ∧
       (∀ j c', columns df !! j = Some c' → strip c' ∈ alts → c' ≠ c →
          build_rename_dict (columns df) !! c' = None ∧
          columns (normalize_columns df) !! j = Some c')).
  { intros (H1 & H2 & H3). split_and!; [done..|].
    intros Hnd j c' Hji Hj Hs'. apply H3; [done..|]. intros ->.
    apply Hji. by eapply NoDup_lookup. }
  assert (first_match alts (columns df) = Some (i, c)) as Hf.
  { apply list_find_Some. split_and!; [done..|]. intros j y Hj Hlt. eauto. }
  assert (build_rename_dict (columns df) !! c = Some std) as Hl.
  { apply lookup_rename_dict. exists alts. by rewrite Hf. }
  split_and!; [done|by rewrite (lookup_columns_normalized _ _ c), Hl|].
  intros j c' Hj Hs' Hne.
  assert (build_rename_dict (columns df) !! c' = None) as Hl'.
  { destruct (build_rename_dict (columns df) !! c') as [s|] eqn:E; [|done].
    apply lookup_rename_dict in E as (alts' & Hc' & Hf').
    pose proof (first_match_strip _ _ _ Hf') as Hs''.
    assert (s = std) as -> by eauto using colmap_disjoint.
    rewrite (colmap_functional _ _ _ Hc' Hc), Hf in Hf'. by simplify_eq/=. }
  split; [done|]. by rewrite (lookup_columns_normalized _ _ c'), Hl'.
Qed.

Lemma first_match_wins_witness :
  columns table_unsorted !! 1 = Some (py " month ") ∧
  columns table_unsorted !! 2 = Some (py "Month") ∧
  columns (normalize_columns table_unsorted) !! 1 = Some col_month ∧
  columns (normalize_columns table_unsorted) !! 2 = Some (py "Month").
Proof.
  assert ((col_month, [col_month; py "month"; py "Month"]) ∈ colmap) as Hc
    by compute_done.
  assert (strip (py " month ") ∈ [col_month; py "month"; py "Month"]) as Hs
    by compute_done.
  assert (∀ j c', j < 1 → columns table_unsorted !! j = Some c' →
            strip c' ∉ [col_month; py "month"; py "Month"]) as Hfirst.
  { intros [|j] c' Hlt Hj; [|lia]. vm_compute in Hj. injection Hj as <-.
    compute_done. }
  destruct (first_match_wins table_unsorted _ _ 1 _ Hc eq_refl Hs Hfirst)
    as (_ & H1 & Hrest & _).
  split_and!; [done..|].
  apply (Hrest 2 (py "Month")); [done|compute_done|done].
Defined.

(** C10. Normalisation changes labels only: the data of every column,
    and with it every cell and the number of rows and of columns, is
    what it was, and a column whose trimmed name is a synonym of no
    canonical field keeps its label. *)
Theorem normalize_columns_frame df :
  (normalize_columns df).*2 = df.*2 ∧
  length (normalize_columns df) = length df ∧
  (∀ i c, columns df !! i = Some c → field_of (strip c) = None →
     columns (normalize_columns df) !! i = Some c).
Proof.
  split_and!.
  - apply data_rename.
  - unfold normalize_columns, rename. by rewrite length_fmap.
  - intros i c Hi Hnone. rewrite (lookup_columns_normalized _ _ c) by done.
    destruct (build_rename_dict (columns df) !! c) as [s|] eqn:E; [|done].
    apply rename_dict_key_resolves in E. unfold resolves in E. congruence.
Qed.

(** * The shape of a prepared frame *)

Section prepared.
Context `{Pandas}.

Lemma derive_metrics_inv df out :
  derive_metrics df = Some out → Derived df out.
Proof.
  unfold derive_metrics. intros Hd.
  destruct (getitem df col_revenue) as [revenue|] eqn:Hrev; [|done].
  destruct (getitem df col_last_year) as [last_year|] eqn:Hly; [|done].
  simpl in Hd.
  destruct (series_sub revenue last_year) as [delta|] eqn:Hsub; [|done].
  simpl in Hd. rewrite getitem_setitem_ne, Hrev in Hd by (by vm_compute).
  simpl in Hd.
  destruct (series_cumsum revenue) as [cumulative|] eqn:Hcum; [|done].
  simpl in Hd. rewrite !getitem_setitem_ne in Hd by (by vm_compute).
  destruct (getitem df col_month) as [month|] eqn:Hm; [|done].
  simpl in Hd.
  destruct (series_strftime month) as [label|] eqn:Hlab; [|done].
  simpl in Hd. injection Hd as <-.
  by econstructor.
Qed.
End prepared.

Lemma isna_any_datetime ts :
  isna_any (SDatetime ts) = bool_decide (None ∈ ts).
Proof.
  unfold isna_any. induction ts as [|t ts IH]; cbn [existsb].
  - symmetry. apply bool_decide_eq_false, not_elem_of_nil.
  - rewrite IH. destruct t as [t|].
    + rewrite (bool_decide_true (is_Some (Some t))) by eauto. simpl.
      apply bool_decide_ext. rewrite elem_of_cons.
      split; [by right|by intros [?|?]].
    + rewrite (bool_decide_false (is_Some None)) by (by intros [? ?]).
      by rewrite (bool_decide_true (None ∈ None :: ts)) by (by left).
Qed.

Section prepare.
Context `{Pandas}.

Lemma prepare_inv df evs out :
  prepare df = (evs, Prepared out) →
  ∃ raw ts revenue last_year delta cumulative,
    prepared_frame df evs out raw ts revenue last_year delta cumulative.
Proof.
  unfold prepare. rewrite missing_unresolved.
  case_bool_decide as Hres; [|done]. unfold parse_and_order.
  destruct (getitem (normalize_columns df) col_month) as [raw|] eqn:Hraw;
    [|done].
  set (month := match to_datetime raw with Some ts => SDatetime ts | None => raw end).
  destruct month as [| | |ts] eqn:Hmonth;
    try (intros [= _ ?]; done).
  destruct (derive_metrics _) as [out'|] eqn:Hd; [|done].
  intros [= <- ->]. destruct (derive_metrics_inv _ _ Hd)
    as [revenue last_year mo delta cumulative label Hrev Hly Hmo Hsub Hcum Hlab ->].
  assert (mo = SDatetime (take_list (nargsort ts) ts)) as ->.
  { rewrite getitem_take_rows, (getitem_setitem_eq _ _ _ raw) in Hmo by done.
    by injection Hmo as <-. }
  injection Hlab as <-.
  exists raw, ts, revenue, last_year, delta, cumulative. split; try done.
  - unfold parsed. subst month. destruct (to_datetime raw); naive_solver.
  - by rewrite <-isna_any_datetime.
  - by rewrite !getitem_setitem_ne by (by vm_compute).
  - intros key Hkey. rewrite !getitem_setitem_ne, getitem_take_rows.
    + by rewrite getitem_setitem_ne by set_solver.
    + set_solver.
    + set_solver.
    + set_solver.
  - by rewrite !getitem_setitem_ne by (by vm_compute).
  - by rewrite !getitem_setitem_ne by (by vm_compute).
  - intros s. rewrite !elem_of_setitem_ne by (by vm_compute).
    apply elem_of_setitem_eq.
  - intros s. rewrite elem_of_setitem_ne by (by vm_compute).
    apply elem_of_setitem_eq.
  - intros s. apply elem_of_setitem_eq.
Qed.

End prepare.

Section claims.
Context `{Pandas}.

Lemma prepare_events df raw ts :
  unresolved df = [] →
  getitem (normalize_columns df) col_month = Some raw →
  to_datetime raw = Some ts →
  (prepare df).1 =
    (if bool_decide (None ∈ ts) then [StWarning warning_message] else []) ∧
  (prepare df).2 ≠ Stopped.
Proof.
  intros Hres Hraw Hts. unfold prepare.
  rewrite missing_unresolved, bool_decide_true by done.
  unfold parse_and_order. rewrite Hraw, Hts, isna_any_datetime.
  by destruct (derive_metrics _).
Qed.

(** With resolved columns, a period column that converts and numeric
    revenue columns, line 106 is reached. *)
Lemma prepare_numeric df raw ts revenue last_year :
  unresolved df = [] →
  getitem (normalize_columns df) col_month = Some raw →
  to_datetime raw = Some ts →
  getitem (normalize_columns df) col_revenue = Some revenue →
  getitem (normalize_columns df) col_last_year = Some last_year →
  numeric revenue → numeric last_year →
  ∃ out, (prepare df).2 = Prepared out.
Proof.
  intros Hres Hraw Hts Hrev Hly Hnr Hnl. unfold prepare.
  rewrite missing_unresolved, bool_decide_true by done.
  unfold parse_and_order. rewrite Hraw, Hts.
  unfold derive_metrics.
  rewrite !getitem_take_rows, !getitem_setitem_ne, Hrev, Hly
    by (by vm_compute).
  cbn [fmap option_fmap option_map mbind option_bind].
  assert (∃ delta, series_sub (take_series (nargsort ts) revenue)
                     (take_series (nargsort ts) last_year) = Some delta)
    as [delta ->] by (destruct revenue, last_year; simpl; by eauto).
  cbn [mbind option_bind].
  rewrite !getitem_setitem_ne, getitem_take_rows, getitem_setitem_ne, Hrev
    by (by vm_compute).
  cbn [fmap option_fmap option_map mbind option_bind].
  assert (∃ cum, series_cumsum (take_series (nargsort ts) revenue) = Some cum)
    as [cum ->] by (destruct revenue; simpl; by eauto).
  cbn [mbind option_bind].
  rewrite !getitem_setitem_ne, getitem_take_rows,
    (getitem_setitem_eq _ _ _ raw) by (done || by vm_compute).
  simpl. eauto.
Qed.

Lemma parsed_to_datetime raw ts ts' :
  to_datetime raw = Some ts → parsed raw ts' → ts' = ts.
Proof. intros Hts [Hp|[Hp _]]; congruence. Qed.

Lemma sorted_take_argsort (vs : list Z) :
  Sorted Z.le (take_list (argsort vs) vs) ∧ take_list (argsort vs) vs ≡ₚ vs.
Proof.
  split; [apply argsort_sorted|]. apply take_list_Permutation, argsort_perm.
Qed.

Lemma Some_omap_id (ts : list (option Z)) :
  (Some <$> omap id ts) ++ replicate (length (filter (λ t, t = None) ts)) None
  ≡ₚ ts.
Proof.
  rewrite <-filter_not_None, <-filter_is_None.
  rewrite (list_filter_iff (λ t, t = None) (λ t : option Z, ¬ t ≠ None)).
  - apply filter_app_complement.
  - intros t. split; [by intros ? ?|]. by destruct t; [intros []|].
Qed.

(** C4. In every prepared frame the delta column is the revenue column
    minus the prior-year column, entry by entry, in the columns' own
    arithmetic: int64 subtraction for int64 columns (the exact
    difference whenever that is an int64 value) and IEEE subtraction for
    float64 columns. *)
Theorem delta_is_difference df evs out revenue last_year :
  prepare df = (evs, Prepared out) →
  getitem out col_revenue = Some revenue →
  getitem out col_last_year = Some last_year →
  ∃ delta,
    series_sub revenue last_year = Some delta ∧
    (∀ s, (col_delta, s) ∈ out ↔ s = delta) ∧
    (∀ rev prior, revenue = SInt64 rev → last_year = SInt64 prior →
       ∃ ds, delta = SInt64 ds ∧
         ∀ i r p, rev !! i = Some r → prior !! i = Some p →
           ds !! i = Some (sub64 r p) ∧
           (int64 (r - p) → ds !! i = Some (r - p)%Z)) ∧
    (∀ x y, revenue = SFloat64 x → last_year = SFloat64 y →
       ∃ ds, delta = SFloat64 ds ∧
         ∀ i r p, x !! i = Some r → y !! i = Some p →
           ds !! i = Some (PrimFloat.sub r p)).
Proof.
  intros (raw & ts & revenue' & last_year' & delta & cumulative & Hpf)
    %prepare_inv Hrev Hly.
  destruct Hpf. simplify_eq. exists delta. split_and!; [done..| |].
  - intros rev prior -> ->. simplify_eq/=. eexists. split; [done|].
    intros i r p Hr Hp. rewrite lookup_zip_with, Hr. simpl. rewrite Hp. simpl.
    split; [done|]. intros Hin. unfold sub64. by rewrite wrap64_id.
  - intros x y -> ->. simplify_eq/=. eexists. split; [done|].
    intros i r p Hr Hp. rewrite lookup_zip_with, Hr. simpl. by rewrite Hp.
Qed.

(** C2. In every prepared frame the cumulative column is the [cumsum]
    of the revenue column, in the order the sort by period has
    established. For an int64 revenue column its entry at each position
    is the int64 sum of the revenue entries up to and including that
    position, and the exact sum whenever that is an int64 value. For a
    float64 revenue column it is missing where the revenue entry is
    missing and elsewhere the running IEEE sum in which the missing
    entries count as 0.0; up to a position before which no entry is
    missing that is the running IEEE sum of the entries themselves. *)
Theorem cumulative_is_prefix_sum df evs out revenue :
  prepare df = (evs, Prepared out) →
  getitem out col_revenue = Some revenue →
  ∃ cumulative ts,
    series_cumsum revenue = Some cumulative ∧
    (∀ s, (col_cumulative, s) ∈ out ↔ s = cumulative) ∧
    (∀ rev, revenue = SInt64 rev →
       ∃ cum, cumulative = SInt64 cum ∧ length cum = length rev ∧
         ∀ i, i < length rev →
           cum !! i = Some (sum64 (take (S i) rev)) ∧
           (Forall int64 rev → int64 (Zsum (take (S i) rev)) →
            cum !! i = Some (Zsum (take (S i) rev)))) ∧
    (∀ xs, revenue = SFloat64 xs →
       ∃ cum, cumulative = SFloat64 cum ∧ length cum = length xs ∧
         ∀ i x, xs !! i = Some x →
           cum !! i =
             Some (if PrimFloat.is_nan x then PrimFloat.nan
                   else fsum (take (S i) (fill 0 <$> xs))) ∧
           (Forall (λ y, PrimFloat.is_nan y = false) (take (S i) xs) →
            cum !! i = Some (fsum (take (S i) xs)))) ∧
    getitem out col_month = Some (SDatetime (take_list (nargsort ts) ts)) ∧
    getitem out col_revenue =
      take_series (nargsort ts) <$> getitem (normalize_columns df) col_revenue.
Proof.
  intros (raw & ts & revenue' & last_year & delta & cumulative & Hpf)
    %prepare_inv Hrev.
  destruct Hpf as [_ _ _ _ Hmonth Hother Hrev' _ _ Hcum _ Hcol _].
  rewrite Hrev in Hrev'. injection Hrev' as <-.
  exists cumulative, ts. split_and!; [done|done| | |done|].
  - intros rev ->. simpl in Hcum. injection Hcum as <-.
    exists (cumsum64 rev). split_and!; [done|apply length_cumsum64|].
    intros i Hi. split; [by apply cumsum64_lookup|]. intros Hall Hin.
    rewrite cumsum64_lookup by done. f_equal.
    apply sum64_exact; [|done]. by apply Forall_take.
  - intros xs ->. simpl in Hcum. injection Hcum as <-.
    exists (fcumsum xs). split_and!; [done|apply length_fcumsum|].
    intros i x Hx. split; [by apply fcumsum_lookup_fill|]. intros Hpre.
    rewrite (fcumsum_lookup_fill _ _ _ Hx), <-fmap_take.
    rewrite (fmap_fill_not_nan _ _ Hpre).
    assert (PrimFloat.is_nan x = false) as ->; [|done].
    rewrite Forall_forall in Hpre. apply Hpre.
    apply (list_elem_of_lookup_2 _ i). rewrite lookup_take_lt by lia. done.
  - apply Hother. compute_done.
Qed.

(** C3. In every prepared frame the rows are those of the input, all
    columns reordered by one permutation, such that the period column
    holds the parsed timestamps in ascending order followed by the
    entries that did not parse; the label column follows it. In
    particular the periods "2024-03", "2024-01", "2024-02" give the
    labels "2024-01", "2024-02", "2024-03". *)
Theorem sorted_by_period df evs out :
  prepare df = (evs, Prepared out) →
  (∃ raw ts vs n,
     getitem (normalize_columns df) col_month = Some raw ∧ parsed raw ts ∧
     nargsort ts ≡ₚ seq 0 (length ts) ∧
     take_list (nargsort ts) ts = (Some <$> vs) ++ replicate n None ∧
     Sorted Z.le vs ∧
     getitem out col_month = Some (SDatetime (take_list (nargsort ts) ts)) ∧
     (∀ key, key ∉ [col_month; col_delta; col_cumulative; col_label] →
        getitem out key =
          take_series (nargsort ts) <$> getitem (normalize_columns df) key) ∧
     ∀ s, (col_label, s) ∈ out ↔
          s = SObject ((Some ∘ strftime_Ym <$> vs) ++ replicate n None)) ∧
  (getitem (normalize_columns df) col_month =
     Some (SObject (Some <$> [py "2024-03"; py "2024-01"; py "2024-02"])) →
   ∀ s, (col_label, s) ∈ out ↔
        s = SObject (Some <$> [py "2024-01"; py "2024-02"; py "2024-03"])).
Proof.
  intros (raw & ts & revenue & last_year & delta & cumulative & Hpf)
    %prepare_inv.
  destruct Hpf as [_ Hraw Hparsed _ Hmonth Hother _ _ _ _ _ _ Hlabel].
  destruct (sorted_take_argsort (omap id ts)) as [Hsorted Hperm].
  split.
  - exists raw, ts. eexists _, _.
    split_and!; [done|done|apply nargsort_Permutation|apply take_nargsort
                |done|done|done|].
    intros s. rewrite Hlabel, take_nargsort.
    by rewrite fmap_app, fmap_replicate, <-list_fmap_compose.
  - rewrite take_nargsort in Hlabel. intros Hraw' s.
    rewrite Hraw in Hraw'. injection Hraw' as ->.
    assert (ts = Some <$> [month_start 2024 3; month_start 2024 1;
                           month_start 2024 2]) as ->.
    { eapply parsed_to_datetime; [|done]. rewrite to_datetime_ym.
      - by vm_compute.
      - repeat (constructor;
                [intros ? [= <-]; rewrite is_Some_alt; by vm_compute|]).
        constructor. }
    assert (take_list (argsort (omap id (Some <$>
              [month_start 2024 3; month_start 2024 1; month_start 2024 2])))
              (omap id (Some <$>
              [month_start 2024 3; month_start 2024 1; month_start 2024 2])) =
            [month_start 2024 1; month_start 2024 2; month_start 2024 3])
      as Heq.
    { apply (Sorted_unique Z.le); [done| |].
      - repeat constructor; by vm_compute.
      - rewrite Hperm. vm_compute.
        by rewrite (Permutation_swap _ _ [_]), (Permutation_swap _ _ []). }
    rewrite Hlabel, Heq. done.
Qed.

(** C7, as the script has it. When the period column converts, the
    page shows the fixed warning text, which carries no count, exactly
    when some period failed to parse, and nothing else; the warning
    never stops the run. A frame that is prepared keeps every row, the
    unparsed ones after the parsed ones with [NaT] as period and a
    missing label; and with numeric revenue columns a frame is
    prepared. *)
Theorem period_warning df raw ts :
  unresolved df = [] →
  getitem (normalize_columns df) col_month = Some raw →
  to_datetime raw = Some ts →
  (prepare df).1 =
    (if bool_decide (None ∈ ts) then [StWarning warning_message] else []) ∧
  (prepare df).2 ≠ Stopped ∧
  (∀ out, (prepare df).2 = Prepared out →
     ∃ vs,
       getitem out col_month =
         Some (SDatetime ((Some <$> vs) ++
                 replicate (length (filter (λ t, t = None) ts)) None)) ∧
       (Some <$> vs) ++ replicate (length (filter (λ t, t = None) ts)) None
         ≡ₚ ts ∧
       ∀ s, (col_label, s) ∈ out ↔
            s = SObject ((Some ∘ strftime_Ym <$> vs) ++
                  replicate (length (filter (λ t, t = None) ts)) None)) ∧
  (∀ revenue last_year,
     getitem (normalize_columns df) col_revenue = Some revenue →
     getitem (normalize_columns df) col_last_year = Some last_year →
     numeric revenue → numeric last_year →
     ∃ out, (prepare df).2 = Prepared out).
Proof.
  intros Hres Hraw Hts.
  destruct (prepare_events df raw ts) as [Hevs Hrun]; [done..|].
  split_and!; [done..| |].
  - intros out Hout.
    assert (prepare df = ((prepare df).1, Prepared out)) as Hprep
      by (by rewrite <-Hout; destruct (prepare df)).
    exists (take_list (argsort (omap id ts)) (omap id ts)).
    apply prepare_inv in Hprep as (raw' & ts' & ? & ? & ? & ? & Hpf).
    destruct Hpf as [_ Hraw' Hparsed _ Hmonth _ _ _ _ _ _ _ Hlabel].
    rewrite Hraw in Hraw'. injection Hraw' as <-.
    apply (parsed_to_datetime _ _ _ Hts) in Hparsed as ->.
    rewrite take_nargsort in Hmonth, Hlabel.
    split_and!; [done| |].
    + destruct (sorted_take_argsort (omap id ts)) as [_ ->].
      apply Some_omap_id.
    + intros s. rewrite Hlabel.
      by rewrite fmap_app, fmap_replicate, <-list_fmap_compose.
  - intros revenue last_year Hrev Hly Hnr Hnl.
    by eapply prepare_numeric.
Qed.

End claims.

Section cards_claims.
Context `{Reductions}.

Lemma kpi_inv df k :
  kpi df = Some k →
  ∃ revenue yoy i_max i_min,
    getitem df col_revenue = Some revenue ∧
    getitem df col_yoy = Some yoy ∧
    series_sum revenue = Some (total_revenue k) ∧
    series_mean yoy = Some (average_growth k) ∧
    series_idxmax revenue = Some i_max ∧
    loc df i_max col_label = Some (best_month k).1 ∧
    loc df i_max col_revenue = Some (best_month k).2 ∧
    series_idxmin revenue = Some i_min ∧
    loc df i_min col_label = Some (worst_month k).1 ∧
    loc df i_min col_revenue = Some (worst_month k).2.
Proof.
  unfold kpi. intros Hk.
  destruct (getitem df col_revenue) as [revenue|] eqn:Hrev; [|done].
  simpl in Hk.
  destruct (series_sum revenue) as [total|] eqn:Hsum; [|done]. simpl in Hk.
  destruct (getitem df col_yoy) as [yoy|] eqn:Hyoy; [|done]. simpl in Hk.
  destruct (series_mean yoy) as [average|] eqn:Hmean; [|done]. simpl in Hk.
  destruct (series_idxmax revenue) as [imax|] eqn:Himax; [|done]. simpl in Hk.
  destruct (loc df imax col_label) as [max_label|] eqn:Hmaxl; [|done].
  simpl in Hk.
  destruct (loc df imax col_revenue) as [max_rev|] eqn:Hmaxr; [|done].
  simpl in Hk.
  destruct (series_idxmin revenue) as [imin|] eqn:Himin; [|done]. simpl in Hk.
  destruct (loc df imin col_label) as [min_label|] eqn:Hminl; [|done].
  simpl in Hk.
  destruct (loc df imin col_revenue) as [min_rev|] eqn:Hminr; [|done].
  simpl in Hk. injection Hk as <-. simpl.
  by exists revenue, yoy, imax, imin.
Qed.

Lemma series_idx_spec (revenue : Series) :
  has_value revenue →
  ∃ i_max i_min,
    series_idxmax revenue = Some i_max ∧ series_idxmin revenue = Some i_min ∧
    i_max < series_len revenue ∧ i_min < series_len revenue.
Proof.
  destruct revenue as [l|l|l|l]; simpl; try done; intros Hl.
  - destruct (idxmax64_spec l Hl) as (i & r & -> & Hr & _).
    destruct (idxmin64_spec l Hl) as (j & q & -> & Hq & _).
    exists i, j. split_and!; [done..| |]; by eapply lookup_lt_Some.
  - destruct (float_idxmax_spec l Hl) as (i & r & -> & Hr & _).
    destruct (float_idxmin_spec l Hl) as (j & q & -> & Hq & _).
    exists i, j. apply lookup_lt_Some in Hr, Hq.
    rewrite length_fmap in Hr, Hq. done.
Qed.

Lemma loc_is_Some df i key s :
  getitem df key = Some s → i < series_len s → is_Some (loc df i key).
Proof.
  intros Hs Hi. unfold loc. rewrite Hs. simpl.
  destruct s as [l|l|l|l]; simpl in *;
    destruct (lookup_lt_is_Some_2 l i Hi) as [x ->]; by eexists.
Qed.

(** The cards can be computed as soon as the revenue column holds a
    value and the growth column is numeric. *)
Lemma kpi_total df revenue yoy labels :
  getitem df col_revenue = Some revenue →
  getitem df col_yoy = Some yoy →
  getitem df col_label = Some (SObject labels) →
  length labels = series_len revenue →
  has_value revenue → numeric yoy →
  is_Some (kpi df).
Proof.
  intros Hrev Hyoy Hlab Hlen Hval Hnum. unfold kpi. rewrite Hrev, Hyoy. simpl.
  assert (is_Some (series_sum revenue)) as [total ->]
    by (destruct revenue; simpl in *; by eauto).
  simpl.
  assert (is_Some (series_mean yoy)) as [average ->]
    by (destruct yoy; simpl in *; by eauto).
  simpl.
  destruct (series_idx_spec revenue Hval)
    as (imax & imin & -> & -> & Himax & Himin).
  simpl.
  destruct (loc_is_Some df imax col_label _ Hlab) as [? ->];
    [simpl; lia|].
  destruct (loc_is_Some df imax col_revenue _ Hrev Himax) as [? ->].
  destruct (loc_is_Some df imin col_label _ Hlab) as [? ->];
    [simpl; lia|].
  destruct (loc_is_Some df imin col_revenue _ Hrev Himin) as [? ->].
  simpl. by eexists.
Qed.

(** C8. The KPI cards. They can be computed as soon as the revenue
    column holds a value, the growth column is numeric and there is one
    label per row. Whenever they are computed: the total is the sum of
    the revenue column (the int64 sum, exact whenever that is an int64
    value; for float64 a floating-point sum of the entries that are not
    missing); the average growth is an arithmetic mean of the growth
    column (a floating-point sum of its entries that are not missing,
    divided by their number); the best month is the row at the first
    position of the greatest revenue and the worst month the row at the
    first position of the least, missing float64 entries counting as
    -inf for the greatest and as +inf for the least; so the revenue of
    the best month is not missing as soon as some revenue is above
    -inf, and that of the worst month as soon as some is below +inf. *)
Theorem kpi_aggregates df :
  (∀ revenue yoy labels,
     getitem df col_revenue = Some revenue →
     getitem df col_yoy = Some yoy →
     getitem df col_label = Some (SObject labels) →
     length labels = series_len revenue →
     has_value revenue → numeric yoy →
     is_Some (kpi df)) ∧
  (∀ k, kpi df = Some k →
   ∃ revenue yoy i_max i_min,
     getitem df col_revenue = Some revenue ∧
     getitem df col_yoy = Some yoy ∧ has_value revenue ∧
     (∀ rev, revenue = SInt64 rev →
        total_revenue k = VInt (sum64 rev) ∧
        (Forall int64 rev → int64 (Zsum rev) →
         total_revenue k = VInt (Zsum rev))) ∧
     (∀ xs, revenue = SFloat64 xs →
        ∃ s, total_revenue k = VFloat s ∧ summation (present xs) s) ∧
     (∀ ys, yoy = SFloat64 ys →
        ∃ a, average_growth k = VFloat a ∧ mean_of (present ys) a) ∧
     (∀ ys, yoy = SInt64 ys →
        ∃ a, average_growth k = VFloat a ∧
             mean_of (present (float_of_int64 <$> ys)) a) ∧
     (∀ l, yoy = SObject l → average_growth k = VFloat PrimFloat.nan) ∧
     loc df i_max col_label = Some (best_month k).1 ∧
     loc df i_max col_revenue = Some (best_month k).2 ∧
     (∀ rev, revenue = SInt64 rev →
        ∃ r, (best_month k).2 = VInt r ∧
             leader (λ a b, (b < a)%Z) rev i_max r) ∧
     (∀ xs, revenue = SFloat64 xs →
        ∃ x, (best_month k).2 = VFloat x ∧ xs !! i_max = Some x ∧
             leader (λ a b, PrimFloat.ltb b a = true)
               (fill neg_infinity <$> xs) i_max (fill neg_infinity x) ∧
             (∀ y, y ∈ present xs → PrimFloat.ltb neg_infinity y = true →
                   PrimFloat.is_nan x = false)) ∧
     loc df i_min col_label = Some (worst_month k).1 ∧
     loc df i_min col_revenue = Some (worst_month k).2 ∧
     (∀ rev, revenue = SInt64 rev →
        ∃ r, (worst_month k).2 = VInt r ∧
             leader (λ a b, (a < b)%Z) rev i_min r) ∧
     (∀ xs, revenue = SFloat64 xs →
        ∃ x, (worst_month k).2 = VFloat x ∧ xs !! i_min = Some x ∧
             leader (λ a b, PrimFloat.ltb a b = true)
               (fill infinity <$> xs) i_min (fill infinity x) ∧
             (∀ y, y ∈ present xs → PrimFloat.ltb y infinity = true →
                   PrimFloat.is_nan x = false))).
Proof.
  split; [intros; by eapply kpi_total|].
  intros k (revenue & yoy & imax & imin & Hrev & Hyoy & Hsum & Hmean & Himax &
    Hmaxl & Hmaxr & Himin & Hminl & Hminr)%kpi_inv.
  exists revenue, yoy, imax, imin.
  assert (∀ i (l : list float), present l = [] → float_idxmax l ≠ Some i)
    as Hnone.
  { intros i l Hl. by rewrite (proj1 (float_idx_None l Hl)). }
  pose proof Hmaxr as Hmax_loc. pose proof Hminr as Hmin_loc.
  unfold loc in Hmaxr, Hminr. rewrite Hrev in Hmaxr, Hminr.
  simpl in Hmaxr, Hminr.
  split_and!; try done.
  - destruct revenue as [l|l|l|l]; simpl in *; try done.
    + by intros ->.
    + intros Hl. by eapply Hnone.
  - intros rev ->. simpl in Hsum. injection Hsum as <-.
    split; [done|]. intros Hall Hfit. by rewrite sum64_exact.
  - intros xs ->. simpl in Hsum. injection Hsum as <-.
    eexists. split; [done|]. apply float_sum_summation.
  - intros ys ->. simpl in Hmean. injection Hmean as <-.
    eexists. split; [done|]. apply float_mean_mean_of.
  - intros ys ->. simpl in Hmean. injection Hmean as <-.
    eexists. split; [done|]. apply float_mean_mean_of.
  - intros l ->. simpl in Hmean. destruct (has_str l); [done|].
    by injection Hmean as <-.
  - intros rev ->. simpl in *.
    destruct (rev !! imax) as [r|] eqn:Hr; [|done]. injection Hmaxr as <-.
    exists r. split; [done|].
    destruct rev as [|x rev]; [done|].
    destruct (idxmax64_spec (x :: rev)) as (i & r' & Hi & Hlead); [done|].
    rewrite Himax in Hi. injection Hi as <-.
    pose proof Hlead as (Hr' & _). rewrite Hr in Hr'. injection Hr' as <-.
    exact Hlead.
  - intros xs ->. simpl in *.
    destruct (xs !! imax) as [x|] eqn:Hx; [|done]. injection Hmaxr as <-.
    exists x.
    destruct (decide (present xs = [])) as [Hp|Hp]; [by apply Hnone in Himax|].
    destruct (float_idxmax_spec xs Hp) as (i & r' & Hi & Hlead).
    rewrite Himax in Hi. injection Hi as <-.
    pose proof Hlead as (Hr' & Hbest & _).
    rewrite list_lookup_fmap, Hx in Hr'. apply (inj Some) in Hr'. subst r'.
    split_and!; [done..|].
    intros y Hy Hlow. apply not_true_is_false. intros Hnan.
    apply (present_filled neg_infinity) in Hy as [j Hj].
    apply (Hbest j y Hj). unfold fill. by rewrite Hnan.
  - intros rev ->. simpl in *.
    destruct (rev !! imin) as [r|] eqn:Hr; [|done]. injection Hminr as <-.
    exists r. split; [done|].
    destruct rev as [|x rev]; [done|].
    destruct (idxmin64_spec (x :: rev)) as (i & r' & Hi & Hlead); [done|].
    rewrite Himin in Hi. injection Hi as <-.
    pose proof Hlead as (Hr' & _). rewrite Hr in Hr'. injection Hr' as <-.
    exact Hlead.
  - intros xs ->. simpl in *.
    destruct (xs !! imin) as [x|] eqn:Hx; [|done]. injection Hminr as <-.
    exists x.
    destruct (decide (present xs = [])) as [Hp|Hp].
    { by rewrite (proj2 (float_idx_None xs Hp)) in Himin. }
    destruct (float_idxmin_spec xs Hp) as (i & r' & Hi & Hlead).
    rewrite Himin in Hi. injection Hi as <-.
    pose proof Hlead as (Hr' & Hbest & _).
    rewrite list_lookup_fmap, Hx in Hr'. apply (inj Some) in Hr'. subst r'.
    split_and!; [done..|].
    intros y Hy Hhigh. apply not_true_is_false. intros Hnan.
    apply (present_filled infinity) in Hy as [j Hj].
    apply (Hbest j y Hj). unfold fill. by rewrite Hnan.
Qed.

End cards_claims.


(** Preparation consults the library for two things only: the
    conversion of the period column and the sorting permutation. *)
Lemma prepare_ext (first second : Pandas) df :
  (∀ l, @argsort first l = @argsort second l) →
  clock_free first second df →
  @prepare first df = @prepare second df.
Proof.
  intros Hsort Hconv. unfold prepare. case_bool_decide; [|done].
  unfold parse_and_order.
  destruct (getitem (normalize_columns df) col_month) as [raw|] eqn:Hraw;
    [|done].
  rewrite (Hconv raw Hraw).
  assert (∀ ts, @nargsort first ts = @nargsort second ts) as Hnarg.
  { intros ts. unfold nargsort. by rewrite Hsort. }
  destruct (@to_datetime second raw) as [ts|]; [by rewrite Hnarg|].
  destruct raw; try done. by rewrite Hnarg.
Qed.

Lemma ym_clock_free (first second : Pandas) df (l : list (option (list N))) :
  getitem (normalize_columns df) col_month = Some (SObject l) →
  Forall (λ o : option (list N), ∀ s, o = Some s → is_Some (parse_ym s)) l →
  clock_free first second df.
Proof.
  intros Hraw Hl raw Hraw'. rewrite Hraw in Hraw'. injection Hraw' as <-.
  by rewrite !to_datetime_ym.
Qed.

Lemma after_cache (P : Pandas) history :
  demo_cache (@after P history) = None ∨
  demo_cache (@after P history) = Some demo_data.
Proof.
  unfold after. induction history as [|inp history IH] using rev_ind;
    [by left|].
  rewrite foldl_app. cbn [foldl].
  destruct (foldl _ fresh history) as [[cached|]]; simpl in IH.
  - destruct IH as [?|[= ->]]; [done|].
    destruct inp as [[up|] [|]]; by right.
  - destruct inp as [[up|] [|]]; cbn; auto.
Qed.

(** C9. A run of the script ends as the preparation of its raw input
    determines, whatever runs came before: nothing a run stores is read
    by the preparation of a later one. A second run on the same input,
    at a later moment, ends exactly as the first and leaves the store of
    the demo frame as it found it, provided both runs sort with the same
    routine and the conversion of the period column does not depend on
    the moment of the run; it does not when every period is missing or
    in the form YYYY-MM. *)
Theorem run_twice (first second : Pandas) history inp :
  (@run first (@after first history) inp).2 = @prepare first (selected inp) ∧
  ((∀ l, @argsort first l = @argsort second l) →
   clock_free first second (selected inp) →
   (@run second (@run first (@after first history) inp).1 inp).2 =
     (@run first (@after first history) inp).2 ∧
   (@run second (@run first (@after first history) inp).1 inp).1 =
     (@run first (@after first history) inp).1) ∧
  (∀ l, getitem (normalize_columns (selected inp)) col_month =
          Some (SObject l) →
        Forall (λ o : option (list N),
                  ∀ s, o = Some s → is_Some (parse_ym s)) l →
        clock_free first second (selected inp)).
Proof.
  split_and!.
  - pose proof (after_cache first history) as Hc.
    destruct (@after first history) as [[cached|]]; simpl in Hc.
    + destruct Hc as [?|[= ->]]; [done|]. by destruct inp as [[up|] [|]].
    + by destruct inp as [[up|] [|]].
  - intros Hsort Hconv.
    pose proof (prepare_ext first second (selected inp) Hsort Hconv) as Hext.
    pose proof (after_cache first history) as Hc.
    destruct (@after first history) as [[cached|]]; simpl in Hc.
    + destruct Hc as [?|[= ->]]; [done|].
      destruct inp as [[up|] [|]]; by simpl in *.
    + destruct inp as [[up|] [|]]; by simpl in *.
  - intros l. apply ym_clock_free.
Qed.


(** * The sample tables *)

Lemma prepare_table_upload :
  prepare table_upload = ([], Prepared prepared_upload).
Proof. vm_compute. reflexivity. Qed.

Lemma prepare_table_unsorted :
  prepare table_unsorted = ([], Prepared prepared_unsorted).
Proof. vm_compute. reflexivity. Qed.

Lemma prepare_table_bad_period :
  prepare table_bad_period =
    ([StWarning warning_message], Prepared prepared_bad_period).
Proof. vm_compute. reflexivity. Qed.

Lemma prepare_table_blank_revenue :
  prepare table_blank_revenue = ([], Prepared prepared_blank_revenue).
Proof. vm_compute. reflexivity. Qed.

Lemma float_neq (x y : float) :
  PrimFloat.is_nan x ≠ PrimFloat.is_nan y → x ≠ y.
Proof. congruence. Qed.

Lemma delta_is_difference_witness :
  prepare table_upload = ([], Prepared prepared_upload) ∧
  getitem prepared_upload col_revenue = Some (SInt64 [12000000; 13500000]%Z) ∧
  getitem prepared_upload col_last_year =
    Some (SInt64 [10500000; 11200000]%Z) ∧
  ∀ s, (col_delta, s) ∈ prepared_upload ↔ s = SInt64 [1500000; 2300000]%Z.
Proof.
  split_and!; [exact prepare_table_upload|reflexivity..|].
  destruct (delta_is_difference table_upload [] prepared_upload _ _
              prepare_table_upload eq_refl eq_refl)
    as (delta & Hsub & Hcol & _).
  injection Hsub as <-. exact Hcol.
Defined.

Lemma cumulative_is_prefix_sum_witness :
  prepare table_unsorted = ([], Prepared prepared_unsorted) ∧
  getitem prepared_unsorted col_revenue = Some (SInt64 [10; 20; 30]%Z) ∧
  ∃ cum,
    (col_cumulative, SInt64 cum) ∈ prepared_unsorted ∧
    cum !! 0 = Some 10%Z ∧ cum !! 1 = Some (10 + 20)%Z ∧
    cum !! 2 = Some (10 + 20 + 30)%Z.
Proof.
  split_and!; [exact prepare_table_unsorted|reflexivity|].
  destruct (cumulative_is_prefix_sum table_unsorted [] prepared_unsorted _
              prepare_table_unsorted eq_refl)
    as (cumulative & ts & _ & Hcol & Hint & _).
  destruct (Hint _ eq_refl) as (cum & -> & _ & Hsum).
  exists cum. split_and!.
  - by apply Hcol.
  - by destruct (Hsum 0) as [-> _]; [simpl; lia|].
  - by destruct (Hsum 1) as [-> _]; [simpl; lia|].
  - by destruct (Hsum 2) as [-> _]; [simpl; lia|].
Defined.

Lemma sorted_by_period_witness :
  prepare table_unsorted = ([], Prepared prepared_unsorted) ∧
  ∀ s, (col_label, s) ∈ prepared_unsorted ↔
       s = SObject (Some <$> [py "2024-01"; py "2024-02"; py "2024-03"]).
Proof.
  split; [exact prepare_table_unsorted|].
  destruct (sorted_by_period table_unsorted [] prepared_unsorted
              prepare_table_unsorted) as [_ Hexample].
  apply Hexample. reflexivity.
Defined.

Lemma period_warning_witness :
  unresolved table_bad_period = [] ∧
  (prepare table_bad_period).1 = [StWarning warning_message] ∧
  ∃ out vs,
    (prepare table_bad_period).2 = Prepared out ∧
    getitem out col_month = Some (SDatetime ((Some <$> vs) ++ [None])).
Proof.
  destruct (period_warning (H := ref_pandas) table_bad_period
              (SObject [Some (py "2024-02"); Some (py "not-a-date");
                        Some (py "2024-01")])
              [Some (month_start 2024 2); None; Some (month_start 2024 1)]
              eq_refl eq_refl eq_refl)
    as (Hevs & _ & Hkept & Hreach).
  split_and!; [reflexivity|exact Hevs|].
  destruct (Hreach (SInt64 [20; 99; 10]%Z) (SInt64 [2; 9; 1]%Z)
              eq_refl eq_refl I I) as [out Hout].
  destruct (Hkept out Hout) as (vs & Hmonth & _).
  exists out, vs. split; [exact Hout|exact Hmonth].
Defined.

Lemma kpi_aggregates_witness :
  ∃ k, kpi prepared_upload = Some k ∧
    total_revenue k = VInt 25500000 ∧
    average_growth k = VFloat 0x1.1666666666666p+4 ∧
    best_month k = (VStr (py "2024-02"), VInt 13500000) ∧
    worst_month k = (VStr (py "2024-01"), VInt 12000000).
Proof.
  destruct (proj1 (kpi_aggregates (H := ref_reductions) prepared_upload)
              (SInt64 [12000000; 13500000]%Z)
              (SFloat64 [0x1.c99999999999ap+3; 0x1.48p+4]%float)
              [Some (py "2024-01"); Some (py "2024-02")]
              eq_refl eq_refl eq_refl eq_refl)
    as [k Hk]; [done..|].
  exists k. split; [done|]. vm_compute in Hk. injection Hk as <-.
  split_and!; reflexivity.
Defined.

Lemma run_twice_witness :
  (@run (pandas_at (month_start 2024 2))
     (@run (pandas_at (month_start 2024 1)) fresh
        {| uploaded := Some table_upload; use_demo := false |}).1
     {| uploaded := Some table_upload; use_demo := false |}).2 =
  ([], Prepared prepared_upload).
Proof.
  destruct (run_twice (pandas_at (month_start 2024 1))
              (pandas_at (month_start 2024 2)) []
              {| uploaded := Some table_upload; use_demo := false |})
    as (Hfirst & Hsecond & Hym).
  destruct Hsecond as [Hsame _]; [done| |].
  - apply (Hym [Some (py "2024-01"); Some (py "2024-02")]); [reflexivity|].
    repeat constructor; intros s [= <-]; by eexists.
  - etrans; [exact Hsame|]. vm_compute. reflexivity.
Defined.

(** C7, as stated, fails: the warning shown for one unparsable period is
    the very warning shown for two, so nothing read off it is the count. *)
Lemma warning_has_no_count :
  (prepare table_bad_period).1 = [StWarning warning_message] ∧
  (prepare table_bad_periods).1 = [StWarning warning_message] ∧
  ¬ ∃ count_of : event → nat,
      warning_carries_count count_of table_bad_period ∧
      warning_carries_count count_of table_bad_periods.
Proof.
  split_and!; [by vm_compute..|].
  intros (count_of & H1 & H2).
  specialize (H1 _ _ (StWarning warning_message) eq_refl eq_refl).
  specialize (H2 _ _ (StWarning warning_message) eq_refl eq_refl).
  assert (count_of (StWarning warning_message) = 1) as E1
    by (apply H1; vm_compute; by left).
  assert (count_of (StWarning warning_message) = 2) as E2
    by (apply H2; vm_compute; by left).
  congruence.
Qed.

(** C2, as stated, fails for a revenue column with a missing entry: the
    cumulative entry at the position of a blank cell is missing, and the
    later ones are sums that leave the blank cell out, so the column is
    neither the running IEEE sum nor the running sum of the entries that
    are not missing. *)
Lemma cumulative_skips_missing :
  prepare table_blank_revenue = ([], Prepared prepared_blank_revenue) ∧
  getitem prepared_blank_revenue col_revenue =
    Some (SFloat64 [1; PrimFloat.nan; 2]%float) ∧
  getitem prepared_blank_revenue col_cumulative =
    Some (SFloat64 [1; PrimFloat.nan; 3]%float) ∧
  ¬ cumulative_is_sum fsum prepared_blank_revenue ∧
  ¬ cumulative_is_sum (fsum ∘ present) prepared_blank_revenue.
Proof.
  split_and!; [exact prepare_table_blank_revenue|reflexivity..| |].
  - intros Hsum. specialize (Hsum _ _ 2 eq_refl eq_refl).
    assert (2 < 3) as Hlt by lia. specialize (Hsum Hlt).
    vm_compute in Hsum. apply (inj Some) in Hsum.
    by apply (float_neq 3 PrimFloat.nan) in Hsum.
  - intros Hsum. specialize (Hsum _ _ 1 eq_refl eq_refl).
    assert (1 < 3) as Hlt by lia. specialize (Hsum Hlt).
    vm_compute in Hsum. apply (inj Some) in Hsum.
    by apply (float_neq PrimFloat.nan 1) in Hsum.
Qed.

(** C9, as stated, fails: a period cell that reads "now" converts to the
    moment of the run, so a second run on the same table, a month later,
    prepares another frame. *)
Lemma second_run_differs :
  ∃ out1 out2,
    (@run (pandas_at (month_start 2024 1)) fresh
       {| uploaded := Some table_now; use_demo := false |}).2 =
      ([], Prepared out1) ∧
    (@run (pandas_at (month_start 2024 2))
       (@run (pandas_at (month_start 2024 1)) fresh
          {| uploaded := Some table_now; use_demo := false |}).1
       {| uploaded := Some table_now; use_demo := false |}).2 =
      ([], Prepared out2) ∧
    getitem out1 col_label = Some (SObject [Some (py "2024-01")]) ∧
    getitem out2 col_label = Some (SObject [Some (py "2024-02")]).
Proof.
  eexists _, _. split_and!; [vm_compute; reflexivity..| |];
    vm_compute; reflexivity.
Qed.

(** C8, as stated, fails for a revenue column that holds a missing entry
    and no value above -inf: the missing entry counts as -inf, so the
    best month is the row of the blank cell, which comes first, and not
    the row that holds the greatest revenue. *)
Lemma best_month_is_missing :
  ∃ out k,
    prepare table_sunk = ([], Prepared out) ∧
    getitem out col_revenue =
      Some (SFloat64 [PrimFloat.nan; neg_infinity]%float) ∧
    kpi out = Some k ∧
    best_month k = (VStr (py "2024-01"), VFloat PrimFloat.nan) ∧
    PrimFloat.is_nan neg_infinity = false.
Proof.
  eexists _, _. split_and!; [vm_compute; reflexivity..|reflexivity].
Qed.
